(** * The whiteboard core of [Whiteboard.tsx]: scene, hit-testing, history

    A shallow embedding of the element model, the hit-test
    ([getElementAtPosition], [distanceToSegment]), the event handlers that
    mutate the scene, and the undo/redo history of
    [src/components/whiteboard/Whiteboard.tsx].

    The component keeps its data in React state cells ([useState]); a
    handler reads the cells of the render it was created in and queues
    updates.  One handler runs per event and the component re-renders
    before the next one, so a handler is modelled as a function from the
    record of cells before the event to the record after it.  The one
    callback that runs later than the render it was created in, [img.onload]
    of the image import, takes the cells of that earlier render as an
    argument of its own.  Toasts, the canvas raster and [localStorage] are
    outside the model. *)

From Stdlib Require Import String.
From Stdlib Require Import List ZArith Lia Bool.
From Stdlib Require Import Floats.PrimFloat.
From Stdlib Require Floats.FloatOps Floats.SpecFloat.
From Stdlib Require Uint63.
From Stdlib Require Import Reals Lra.
Import ListNotations.
Open Scope string_scope.
Open Scope list_scope.

Set Implicit Arguments.

(** ** Numbers

    Every coordinate and size is a JavaScript [number].  The code is
    written once over the operations it uses and read twice: over the
    binary64 floats of the machine ([JsFloat], what the program computes,
    bit for bit) and over the real numbers ([Ideal], the arithmetic the
    geometry is meant to implement). *)

Class Number : Type := {
  num : Type;
  ofZ : Z -> num;                  (* an integer literal *)
  lit_0_8 : num;                   (* the literal [0.8] *)
  add : num -> num -> num;
  sub : num -> num -> num;
  mul : num -> num -> num;
  div : num -> num -> num;
  sqrt : num -> num;               (* [Math.sqrt] *)
  abs : num -> num;                (* [Math.abs] *)
  min : num -> num -> num;         (* [Math.min] *)
  max : num -> num -> num;         (* [Math.max] *)
  ltb : num -> num -> bool;        (* [x < y] *)
  leb : num -> num -> bool;        (* [x <= y] *)
  eqb : num -> num -> bool;        (* [x === y] *)
  truthy : num -> bool             (* [ToBoolean], as in [w ? w : 200] *)
}.

(** [x > y] and [x >= y] are [y < x] and [y <= x], also on NaN. *)
Definition gtb {N : Number} (x y : num) : bool := ltb y x.
Definition geb {N : Number} (x y : num) : bool := leb y x.
(** [x !== y] *)
Definition neqb {N : Number} (x y : num) : bool := negb (eqb x y).

Module JsFloat.

Definition float_ofZ (z : Z) : float :=
  match z with
  | Z0 => PrimFloat.zero
  | Zpos _ => PrimFloat.of_uint63 (Uint63.of_Z z)
  | Zneg p => PrimFloat.opp (PrimFloat.of_uint63 (Uint63.of_Z (Zpos p)))
  end.

(** [Math.min]: NaN if an argument is NaN, and [-0] counts below [+0]. *)
Definition float_min (a b : float) : float :=
  if PrimFloat.is_nan a || PrimFloat.is_nan b then PrimFloat.nan
  else if PrimFloat.ltb a b then a
  else if PrimFloat.ltb b a then b
  else if PrimFloat.get_sign a then a else b.

Definition float_max (a b : float) : float :=
  if PrimFloat.is_nan a || PrimFloat.is_nan b then PrimFloat.nan
  else if PrimFloat.ltb a b then b
  else if PrimFloat.ltb b a then a
  else if PrimFloat.get_sign a then b else a.

(** [0], [-0] and NaN are the falsy numbers. *)
Definition float_truthy (a : float) : bool :=
  negb (PrimFloat.is_zero a || PrimFloat.is_nan a).

#[export] Instance number : Number := {|
  num := float;
  ofZ := float_ofZ;
  lit_0_8 := 0x1.999999999999ap-1%float;   (* the double nearest to 0.8 *)
  add := PrimFloat.add;
  sub := PrimFloat.sub;
  mul := PrimFloat.mul;
  div := PrimFloat.div;
  sqrt := PrimFloat.sqrt;
  abs := PrimFloat.abs;
  min := float_min;
  max := float_max;
  ltb := PrimFloat.ltb;
  leb := PrimFloat.leb;
  eqb := PrimFloat.eqb;
  truthy := float_truthy
|}.

End JsFloat.

Module Ideal.

Definition Rltb (a b : R) : bool := if Rlt_dec a b then true else false.
Definition Rleb (a b : R) : bool := if Rle_dec a b then true else false.
Definition Reqb (a b : R) : bool := if Req_dec_T a b then true else false.

#[export] Instance number : Number := {|
  num := R;
  ofZ := IZR;
  lit_0_8 := (8 / 10)%R;
  add := Rplus;
  sub := Rminus;
  mul := Rmult;
  div := Rdiv;
  sqrt := R_sqrt.sqrt;
  abs := Rabs;
  min := Rmin;
  max := Rmax;
  ltb := Rltb;
  leb := Rleb;
  eqb := Reqb;
  truthy := fun a => negb (Reqb a 0%R)
|}.

End Ideal.

Declare Scope num_scope.
Delimit Scope num_scope with num.
Infix "+" := add : num_scope.
Infix "-" := sub : num_scope.
Infix "*" := mul : num_scope.
Infix "/" := div : num_scope.
Infix "<?" := ltb : num_scope.
Infix "<=?" := leb : num_scope.
Infix ">?" := gtb (at level 70) : num_scope.
Infix ">=?" := geb (at level 70) : num_scope.

(** ** The element model (lines 13-75) *)

Section Whiteboard.

Context {N : Number}.

Record Point : Type := mkPoint { x : num; y : num }.

Inductive ShapeType : Type := rectangle | circle | arrow.

Record BaseElement : Type := mkBase {
  id : string;
  color : string;
  strokeWidth : num;
  opacity : num
}.

Inductive Align : Type := AlignLeft | AlignCenter | AlignRight.

(** The optional formatting fields of a [TextElement]. *)
Record TextFormat : Type := mkFormat {
  align : option Align;
  isBold : option bool;
  isItalic : option bool;
  isUnderlined : option bool
}.

Inductive Element : Type :=
| PathElement (base : BaseElement) (points : list Point)
| ShapeElement (base : BaseElement) (type : ShapeType)
    (startPoint endPoint : Point)
| TextElement (base : BaseElement) (position : Point) (text : string)
    (width height : option num) (format : TextFormat)
| NoteElement (base : BaseElement) (position : Point) (text : string)
    (width height : option num)
| ImageElement (base : BaseElement) (position : Point) (src : string)
    (width height rotation : num).

Definition base_of (el : Element) : BaseElement :=
  match el with
  | PathElement b _ => b
  | ShapeElement b _ _ _ => b
  | TextElement b _ _ _ _ _ => b
  | NoteElement b _ _ _ _ => b
  | ImageElement b _ _ _ _ _ => b
  end.

(** [el.id] *)
Definition id_of (el : Element) : string := id (base_of el).

(** ** Geometry (lines 667-696) *)

Local Open Scope num_scope.

Definition distanceToSegment (point p1 p2 : Point) : num :=
  let A := x point - x p1 in
  let B := y point - y p1 in
  let C := x p2 - x p1 in
  let D := y p2 - y p1 in
  let dot := A * C + B * D in
  let lenSq := C * C + D * D in
  let param := if neqb lenSq (ofZ 0) then dot / lenSq else ofZ (-1) in
  let '(xx, yy) :=
    if param <? ofZ 0 then (x p1, y p1)
    else if param >? ofZ 1 then (x p2, y p2)
    else (x p1 + param * C, y p1 + param * D) in
  let dx := x point - xx in
  let dy := y point - yy in
  sqrt (dx * dx + dy * dy).

(** ** Hit-testing (lines 610-665) *)

(** [w ? w : 200] on an optional size: [undefined], [0] and NaN give 200. *)
Definition sizeOr200 (w : option num) : num :=
  match w with
  | Some v => if truthy v then v else ofZ 200
  | None => ofZ 200
  end.

(** The box test of the text, note and image branch (lines 620-623). *)
Definition boxHit (point position : Point) (width height : num) : bool :=
  (x point >=? x position) && (x point <=? x position + width) &&
  (y point >=? y position) && (y point <=? y position + height).

(** The inner loop of the path branch (lines 630-635): [j] runs over the
    consecutive pairs [points[j]], [points[j + 1]]. *)
Fixpoint pathHit (point : Point) (points : list Point) : bool :=
  match points with
  | p1 :: ((p2 :: _) as rest) =>
      if distanceToSegment point p1 p2 <? ofZ 10 then true
      else pathHit point rest
  | _ => false
  end.

Definition rectangleHit (point startPoint endPoint : Point) : bool :=
  let minX := min (x startPoint) (x endPoint) in
  let maxX := max (x startPoint) (x endPoint) in
  let minY := min (y startPoint) (y endPoint) in
  let maxY := max (y startPoint) (y endPoint) in
  (x point >=? minX) && (x point <=? maxX) &&
  (y point >=? minY) && (y point <=? maxY).

Definition circleHit (point startPoint endPoint : Point) : bool :=
  let centerX := (x startPoint + x endPoint) / ofZ 2 in
  let centerY := (y startPoint + y endPoint) / ofZ 2 in
  let radiusX := abs (x endPoint - x startPoint) / ofZ 2 in
  let radiusY := abs (y endPoint - y startPoint) / ofZ 2 in
  let normalizedX := (x point - centerX) / radiusX in
  let normalizedY := (y point - centerY) / radiusY in
  let distance :=
    sqrt (normalizedX * normalizedX + normalizedY * normalizedY) in
  distance <=? ofZ 1.

(** The body of the loop of [getElementAtPosition]: does [element] accept
    [point]? *)
Definition hitsElement (point : Point) (element : Element) : bool :=
  match element with
  | TextElement _ position _ width height _
  | NoteElement _ position _ width height =>
      boxHit point position (sizeOr200 width) (sizeOr200 height)
  | ImageElement _ position _ width height _ =>
      boxHit point position width height
  | PathElement _ points => pathHit point points
  | ShapeElement _ rectangle startPoint endPoint =>
      rectangleHit point startPoint endPoint
  | ShapeElement _ circle startPoint endPoint =>
      circleHit point startPoint endPoint
  | ShapeElement _ arrow startPoint endPoint =>
      distanceToSegment point startPoint endPoint <? ofZ 10
  end.

(** [for (let i = elements.length - 1; i >= 0; i--)]: the first element
    that accepts the point, scanning from the last one down. *)
Definition getElementAtPosition (elements : list Element) (point : Point)
  : option Element :=
  find (hitsElement point) (rev elements).

(** ** Arrays *)

(** [arr.slice(0, e)]: a negative [e] counts from the end. *)
Definition slice0 {A : Type} (arr : list A) (e : Z) : list A :=
  let len := Z.of_nat (length arr) in
  let k := if (e <? 0)%Z then Z.max (len + e) 0 else Z.min e len in
  firstn (Z.to_nat k) arr.

(** [arr[i]]: [None] is [undefined]. *)
Definition lookup {A : Type} (arr : list A) (i : Z) : option A :=
  if (i <? 0)%Z then None else nth_error arr (Z.to_nat i).

(** ** The state cells (lines 91-99) *)

Inductive ToolType : Type :=
| tool_select | tool_pen | tool_shape (s : ShapeType)
| tool_text | tool_note | tool_image | tool_eraser.

Inductive Action : Type := act_none | act_drawing | act_moving | act_erasing.

(** The cells [strokeWidth] and [opacity] are named [selectedStrokeWidth]
    and [selectedOpacity] here, apart from the fields of an element. *)
Record State : Type := mkState {
  activeTool : ToolType;
  elements : list Element;
  selectedElement : option Element;
  action : Action;
  selectedColor : string;
  selectedStrokeWidth : num;
  selectedOpacity : num;
  history : list (list Element);
  historyIndex : Z
}.

Definition setElements (v : list Element) (st : State) : State :=
  mkState (activeTool st) v (selectedElement st) (action st)
    (selectedColor st) (selectedStrokeWidth st) (selectedOpacity st)
    (history st) (historyIndex st).

Definition setSelectedElement (v : option Element) (st : State) : State :=
  mkState (activeTool st) (elements st) v (action st)
    (selectedColor st) (selectedStrokeWidth st) (selectedOpacity st)
    (history st) (historyIndex st).

Definition setAction (v : Action) (st : State) : State :=
  mkState (activeTool st) (elements st) (selectedElement st) v
    (selectedColor st) (selectedStrokeWidth st) (selectedOpacity st)
    (history st) (historyIndex st).

Definition setHistory (v : list (list Element)) (st : State) : State :=
  mkState (activeTool st) (elements st) (selectedElement st) (action st)
    (selectedColor st) (selectedStrokeWidth st) (selectedOpacity st)
    v (historyIndex st).

Definition setHistoryIndex (v : Z) (st : State) : State :=
  mkState (activeTool st) (elements st) (selectedElement st) (action st)
    (selectedColor st) (selectedStrokeWidth st) (selectedOpacity st)
    (history st) v.

Definition setActiveTool (v : ToolType) (st : State) : State :=
  mkState v (elements st) (selectedElement st) (action st)
    (selectedColor st) (selectedStrokeWidth st) (selectedOpacity st)
    (history st) (historyIndex st).

Definition setSelectedColor (v : string) (st : State) : State :=
  mkState (activeTool st) (elements st) (selectedElement st) (action st)
    v (selectedStrokeWidth st) (selectedOpacity st)
    (history st) (historyIndex st).

Definition setStrokeWidth (v : num) (st : State) : State :=
  mkState (activeTool st) (elements st) (selectedElement st) (action st)
    (selectedColor st) v (selectedOpacity st)
    (history st) (historyIndex st).

Definition setOpacity (v : num) (st : State) : State :=
  mkState (activeTool st) (elements st) (selectedElement st) (action st)
    (selectedColor st) (selectedStrokeWidth st) v
    (history st) (historyIndex st).

(** The cells of the first render. *)
Definition initialState : State :=
  mkState tool_select [] None act_none "#000000" (ofZ 3) (ofZ 1) [] (-1).

(** ** The history (lines 98-99, 698-712, 1048-1049) *)

(** The two statements every committing handler ends with (lines 354-358,
    379-383, 404-408, 491-495, 509-516, ...):
<<
    setHistory((prevHistory) => {
      const newHistory = prevHistory.slice(0, historyIndex + 1);
      return [...newHistory, scene];
    });
    setHistoryIndex((prevIndex) => prevIndex + 1);
>> *)
Definition commit (scene : list Element) (st : State) : State :=
  setHistoryIndex (historyIndex st + 1)
    (setHistory (slice0 (history st) (historyIndex st + 1) ++ [scene]) st).

(** A scene change together with its history entry: [setElements] to the
    new scene, then the commit of the same scene. *)
Definition commitScene (scene : list Element) (st : State) : State :=
  commit scene (setElements scene st).

(** [handleUndo].  [history[historyIndex - 1]] is read without a bounds
    check: [None] stands for the state in which [elements] is
    [undefined]. *)
Definition handleUndo (st : State) : option State :=
  if (historyIndex st >? 0)%Z then
    match lookup (history st) (historyIndex st - 1) with
    | Some scene =>
        Some (setElements scene (setHistoryIndex (historyIndex st - 1) st))
    | None => None
    end
  else Some st.

Definition handleRedo (st : State) : option State :=
  if (historyIndex st <? Z.of_nat (length (history st)) - 1)%Z then
    match lookup (history st) (historyIndex st + 1) with
    | Some scene =>
        Some (setElements scene (setHistoryIndex (historyIndex st + 1) st))
    | None => None
    end
  else Some st.

(** The props [canUndo] and [canRedo] of the toolbar. *)
Definition canUndo (st : State) : bool := (historyIndex st >? 0)%Z.
Definition canRedo (st : State) : bool :=
  (historyIndex st <? Z.of_nat (length (history st)) - 1)%Z.

(** [confirmClear] *)
Definition confirmClear (st : State) : State :=
  setHistoryIndex (-1) (setHistory [] (setElements [] st)).

(** What [switchProject] (lines 190-193) and [createNewProject] (lines
    165-167) do to these cells: the project's scene is loaded and the
    history is emptied.  The project list is not part of the model. *)
Definition loadProject (projectElements : list Element) (st : State) : State :=
  setHistoryIndex (-1) (setHistory [] (setElements projectElements st)).

(** ** Scene edits by id (lines 502-608) *)

(** [elements.map((el) => el.id === id ? patch(el) : el)] *)
Definition updateById (patch : Element -> Element) (id0 : string)
  (els : list Element) : list Element :=
  map (fun el => if String.eqb (id_of el) id0 then patch el else el) els.

(** [elements.filter((el) => el.id !== id)] *)
Definition removeById (id0 : string) (els : list Element) : list Element :=
  filter (fun el => negb (String.eqb (id_of el) id0)) els.

(** The object spreads of the handlers.  A spread that names a field the
    variant does not declare ([text] on a path, say) adds a property that
    nothing reads; the typed model leaves such an element as it is. *)
Definition withText (newText : string) (el : Element) : Element :=
  match el with
  | TextElement b p _ w h f => TextElement b p newText w h f
  | NoteElement b p _ w h => NoteElement b p newText w h
  | _ => el
  end.

Definition withPosition (newPosition : Point) (el : Element) : Element :=
  match el with
  | TextElement b _ t w h f => TextElement b newPosition t w h f
  | NoteElement b _ t w h => NoteElement b newPosition t w h
  | ImageElement b _ s w h r => ImageElement b newPosition s w h r
  | _ => el
  end.

(** [el.type === "text" || el.type === "note" ? { ...el, width, height }
    : el] *)
Definition withTextSize (width height : num) (el : Element) : Element :=
  match el with
  | TextElement b p t _ _ f => TextElement b p t (Some width) (Some height) f
  | NoteElement b p t _ _ => NoteElement b p t (Some width) (Some height)
  | _ => el
  end.

Definition withColor (newColor : string) (el : Element) : Element :=
  let recolor b := mkBase (id b) newColor (strokeWidth b) (opacity b) in
  match el with
  | PathElement b ps => PathElement (recolor b) ps
  | ShapeElement b t s e => ShapeElement (recolor b) t s e
  | TextElement b p t w h f => TextElement (recolor b) p t w h f
  | NoteElement b p t w h => NoteElement (recolor b) p t w h
  | ImageElement b p s w h r => ImageElement (recolor b) p s w h r
  end.

(** [el.type === "image" ? { ...el, width, height } : el] *)
Definition withImageSize (width height : num) (el : Element) : Element :=
  match el with
  | ImageElement b p s _ _ r => ImageElement b p s width height r
  | _ => el
  end.

Definition withRotation (rotation : num) (el : Element) : Element :=
  match el with
  | ImageElement b p s w h _ => ImageElement b p s w h rotation
  | _ => el
  end.

Definition handleTextChange (id0 newText : string) (st : State) : State :=
  commitScene (updateById (withText newText) id0 (elements st)) st.

Definition handleElementDelete (id0 : string) (st : State) : State :=
  commitScene (removeById id0 (elements st)) st.

(** No history entry: a drag reports every intermediate position. *)
Definition handlePositionChange (id0 : string) (newPosition : Point)
  (st : State) : State :=
  setElements (updateById (withPosition newPosition) id0 (elements st)) st.

Definition handleTextResize (id0 : string) (width height : num) (st : State)
  : State :=
  commitScene (updateById (withTextSize width height) id0 (elements st)) st.

Definition handleNoteColorChange (id0 newColor : string) (st : State)
  : State :=
  commitScene (updateById (withColor newColor) id0 (elements st)) st.

Definition handleImageResize (id0 : string) (width height : num) (st : State)
  : State :=
  commitScene (updateById (withImageSize width height) id0 (elements st)) st.

Definition handleImageRotate (id0 : string) (rotation : num) (st : State)
  : State :=
  commitScene (updateById (withRotation rotation) id0 (elements st)) st.

(** ** Pointer events (lines 334-500) *)

Definition noFormat : TextFormat := mkFormat None None None None.

(** [startDrawing]; [now] is [Date.now().toString()], the new element's
    id.  The image tool opens the file dialog and changes no cell. *)
Definition startDrawing (point : Point) (now : string) (st : State) : State :=
  match activeTool st with
  | tool_select =>
      match getElementAtPosition (elements st) point with
      | Some ((PathElement _ _ | ShapeElement _ _ _ _) as element) =>
          setAction act_moving (setSelectedElement (Some element) st)
      | _ => st
      end
  | tool_eraser =>
      let st1 := setAction act_erasing st in
      match getElementAtPosition (elements st) point with
      | Some elementToErase =>
          commitScene (removeById (id_of elementToErase) (elements st)) st1
      | None => st1
      end
  | tool_text =>
      let newTextElement :=
        TextElement
          (mkBase now (selectedColor st) (selectedStrokeWidth st)
             (selectedOpacity st))
          point "Type here..." (Some (ofZ 250)) (Some (ofZ 150)) noFormat in
      commitScene (elements st ++ [newTextElement]) st
  | tool_note =>
      let newNoteElement :=
        NoteElement
          (mkBase now "#ffeb3b" (selectedStrokeWidth st) (selectedOpacity st))
          point "New note" (Some (ofZ 200)) (Some (ofZ 200)) in
      commitScene (elements st ++ [newNoteElement]) st
  | tool_image => st
  | tool_pen =>
      let newElement :=
        PathElement
          (mkBase now (selectedColor st) (selectedStrokeWidth st)
             (selectedOpacity st))
          [point] in
      setElements (elements st ++ [newElement]) (setAction act_drawing st)
  | tool_shape shapeType =>
      let newElement :=
        ShapeElement
          (mkBase now (selectedColor st) (selectedStrokeWidth st)
             (selectedOpacity st))
          shapeType point point in
      setElements (elements st ++ [newElement]) (setAction act_drawing st)
  end.

(** [draw].  While drawing, the last element is the one in progress.
    [activeTool === "pen" && element.type === "path"] reads [element.type]
    only for the pen and the shape tools; on an empty scene the element is
    [undefined] and the read throws: [None]. *)
Definition draw (point : Point) (st : State) : option State :=
  match action st with
  | act_none => Some st
  | act_erasing =>
      match getElementAtPosition (elements st) point with
      | Some elementToErase =>
          let id0 := id_of elementToErase in
          Some (setElements (removeById id0 (elements st)) st)
      | None => Some st
      end
  | act_drawing =>
      let i := (Z.of_nat (length (elements st)) - 1)%Z in
      let element := lookup (elements st) i in
      match activeTool st with
      | tool_pen =>
          match element with
          | None => None
          | Some (PathElement b points) =>
              let newElement := PathElement b (points ++ [point]) in
              Some (setElements (slice0 (elements st) i ++ [newElement]) st)
          | Some _ => Some st
          end
      | tool_shape _ =>
          match element with
          | None => None
          | Some (ShapeElement b t startPoint _) =>
              let newElement := ShapeElement b t startPoint point in
              Some (setElements (slice0 (elements st) i ++ [newElement]) st)
          | Some _ => Some st
          end
      | _ => Some st
      end
  | act_moving => Some st
  end.

Definition finishDrawing (st : State) : State :=
  let st1 :=
    match action st with
    | act_drawing => commit (elements st) st
    | _ => st
    end in
  setSelectedElement None (setAction act_none st1).

(** ** Image import (lines 801-848) *)

(** [a || b] on numbers. *)
Definition orElse (a : option num) (b : num) : num :=
  match a with
  | Some v => if truthy v then v else b
  | None => b
  end.

(** The display box of an image of [imgWidth] by [imgHeight] on a canvas
    of [canvasWidth] by [canvasHeight] (lines 805-826): width, height and
    position. *)
Definition displayBox (canvasWidth canvasHeight imgWidth imgHeight : num)
  : num * num * Point :=
  let maxWidth := canvasWidth * lit_0_8 in
  let maxHeight := canvasHeight * lit_0_8 in
  let '(width, height) :=
    if imgWidth >? maxWidth then
      let ratio := maxWidth / imgWidth in (maxWidth, imgHeight * ratio)
    else (imgWidth, imgHeight) in
  let '(width, height) :=
    if height >? maxHeight then
      let ratio := maxHeight / height in (width * ratio, maxHeight)
    else (width, height) in
  let position :=
    mkPoint ((canvasWidth - width) / ofZ 2) ((canvasHeight - height) / ofZ 2) in
  (width, height, position).

(** The element [img.onload] makes (lines 802-838).  [canvas] is the size
    of [canvasRef.current], if there is one; [inner] is the window's. *)
Definition newImage (canvas : option (num * num)) (inner img : num * num)
  (src now : string) : Element :=
  let canvasWidth := orElse (option_map fst canvas) (fst inner) in
  let canvasHeight := orElse (option_map snd canvas) (snd inner) in
  let '(width, height, position) :=
    displayBox canvasWidth canvasHeight (fst img) (snd img) in
  ImageElement (mkBase now "#ffffff" (ofZ 0) (ofZ 1)) position src
    width height (ofZ 0).

(** [img.onload] of [handleFileUpload] (lines 801-848).  The callback runs
    when the image has loaded, on the cells [st] of that moment, but it was
    created in the render [chosen] in which the file was chosen: the three
    updater functions (lines 840-846) get the scene, the history and the
    cursor of [st], while the names [elements] and [historyIndex] inside
    the history updater are those of [chosen]. *)
Definition imageOnLoad (chosen : State) (canvas : option (num * num))
  (inner img : num * num) (src now : string) (st : State) : State :=
  let newImageElement := newImage canvas inner img src now in
  setHistoryIndex (historyIndex st + 1)
    (setHistory
       (slice0 (history st) (historyIndex chosen + 1) ++
        [elements chosen ++ [newImageElement]])
       (setElements (elements st ++ [newImageElement]) st)).

(** ** Events *)

Inductive Event : Type :=
| ev_tool (t : ToolType)
| ev_color (c : string)
| ev_strokeWidth (w : num)
| ev_opacity (o : num)
| ev_down (point : Point) (now : string)
| ev_move (point : Point)
| ev_up
| ev_textChange (id0 newText : string)
| ev_delete (id0 : string)
| ev_positionChange (id0 : string) (newPosition : Point)
| ev_textResize (id0 : string) (width height : num)
| ev_noteColor (id0 newColor : string)
| ev_imageResize (id0 : string) (width height : num)
| ev_imageRotate (id0 : string) (rotation : num)
| ev_image (chosen : State) (canvas : option (num * num))
    (inner img : num * num) (src now : string)
| ev_undo
| ev_redo
| ev_clear
| ev_load (projectElements : list Element).

(** The handler each event is wired to (lines 864-930, 989-1055). *)
Definition handle (ev : Event) (st : State) : option State :=
  match ev with
  | ev_tool t => Some (setActiveTool t st)
  | ev_color c => Some (setSelectedColor c st)
  | ev_strokeWidth w => Some (setStrokeWidth w st)
  | ev_opacity o => Some (setOpacity o st)
  | ev_down point now => Some (startDrawing point now st)
  | ev_move point => draw point st
  | ev_up => Some (finishDrawing st)
  | ev_textChange id0 newText => Some (handleTextChange id0 newText st)
  | ev_delete id0 => Some (handleElementDelete id0 st)
  | ev_positionChange id0 p => Some (handlePositionChange id0 p st)
  | ev_textResize id0 w h => Some (handleTextResize id0 w h st)
  | ev_noteColor id0 c => Some (handleNoteColorChange id0 c st)
  | ev_imageResize id0 w h => Some (handleImageResize id0 w h st)
  | ev_imageRotate id0 r => Some (handleImageRotate id0 r st)
  | ev_image chosen canvas inner img src now =>
      Some (imageOnLoad chosen canvas inner img src now st)
  | ev_undo => handleUndo st
  | ev_redo => handleRedo st
  | ev_clear => Some (confirmClear st)
  | ev_load projectElements => Some (loadProject projectElements st)
  end.

(** The render an event's handler was created in is the current one, but
    for [img.onload]: its render is any of those so far. *)
Definition closureOf (ev : Event) (renders : list State) : Prop :=
  match ev with
  | ev_image chosen _ _ _ _ _ => In chosen renders
  | _ => True
  end.

(** The renders of the component, the latest first: the first render, then
    one event after another, each allowed by [ok]. *)
Inductive rendered (ok : Event -> State -> Prop) : list State -> Prop :=
| rendered_init : rendered ok [initialState]
| rendered_step ev st st' past :
    rendered ok (st :: past) -> closureOf ev (st :: past) -> ok ev st ->
    handle ev st = Some st' -> rendered ok (st' :: st :: past).

(** The states the component can be in. *)
Definition reachable (st : State) : Prop :=
  exists past, rendered (fun _ _ => True) (st :: past).

(** The image has loaded after the cursor has moved on from where it stood
    when the file was chosen. *)
Definition lateLoad (ev : Event) (st : State) : bool :=
  match ev with
  | ev_image chosen _ _ _ _ _ => (historyIndex chosen <? historyIndex st)%Z
  | _ => false
  end.

(** [f] applied [n] times, stopping at the first failure. *)
Fixpoint repeatM (n : nat) (f : State -> option State) (st : State)
  : option State :=
  match n with
  | O => Some st
  | S k => match f st with Some st' => repeatM k f st' | None => None end
  end.

(** The history invariant. *)
Definition cursorInRange (st : State) : Prop :=
  (-1 <= historyIndex st < Z.of_nat (length (history st)))%Z.

(** The cursor moved to [i], showing [scene]: what an effective undo or
    redo does. *)
Definition moveCursor (i : Z) (scene : list Element) (st : State) : State :=
  setElements scene (setHistoryIndex i st).

(** The scene on display is the entry under the cursor. *)
Definition showsCursor (st : State) : Prop :=
  (0 <= historyIndex st < Z.of_nat (length (history st)))%Z /\
  lookup (history st) (historyIndex st) = Some (elements st).

(** One committed scene after another. *)
Definition commitAll (scenes : list (list Element)) (st : State) : State :=
  fold_left (fun st' scene => commitScene scene st') scenes st.

End Whiteboard.

(** ** Plane geometry over the reals

    What the hit-test is measured against: distances in the Euclidean
    plane, stated without reference to the code. *)

Module Plane.

Local Open Scope R_scope.

Definition RPoint : Type := @Point Ideal.number.

Definition px (p : RPoint) : R := x p.
Definition py (p : RPoint) : R := y p.

(** The distance between two points. *)
Definition pointDistance (p q : RPoint) : R :=
  R_sqrt.sqrt ((px p - px q) * (px p - px q) + (py p - py q) * (py p - py q)).

(** The point [a + s (b - a)] of the line through [a] and [b]. *)
Definition along (a b : RPoint) (s : R) : RPoint :=
  @mkPoint Ideal.number (px a + s * (px b - px a)) (py a + s * (py b - py a)).

(** The parameter of the orthogonal projection of [p] on that line. *)
Definition projection (p a b : RPoint) : R :=
  ((px p - px a) * (px b - px a) + (py p - py a) * (py b - py a)) /
  ((px b - px a) * (px b - px a) + (py b - py a) * (py b - py a)).

(** [p - f] is orthogonal to [b - a]. *)
Definition perpendicular (p f a b : RPoint) : Prop :=
  (px p - px f) * (px b - px a) + (py p - py f) * (py b - py a) = 0.

(** The distance from [p] to the line through [a] and [b]: twice the area
    of the triangle over the length of its base. *)
Definition lineDistance (p a b : RPoint) : R :=
  Rabs ((px p - px a) * (py b - py a) - (py p - py a) * (px b - px a)) /
  R_sqrt.sqrt
    ((px b - px a) * (px b - px a) + (py b - py a) * (py b - py a)).

(** The parameter the code clamps: [-1] on a degenerate segment, the
    projection's otherwise. *)
Definition segmentParam (p a b : RPoint) : R :=
  let lenSq :=
    (px b - px a) * (px b - px a) + (py b - py a) * (py b - py a) in
  if Req_dec_T lenSq 0 then -1 else projection p a b.

End Plane.

(** ** Exact values of binary64 numbers *)

Module Exact.

(** A finite binary64 number is [m * 2^e] for two integers [m] and [e]. *)
Definition value (f : float) : option (Z * Z) :=
  match FloatOps.Prim2SF f with
  | SpecFloat.S754_zero _ => Some (0%Z, 0%Z)
  | SpecFloat.S754_finite s m e => Some (if s then Z.neg m else Z.pos m, e)
  | _ => None
  end.

(** [a * p] compared with [b * q] in exact arithmetic, for integers [p]
    and [q]. *)
Definition cross (a : float) (p : Z) (b : float) (q : Z)
  : option comparison :=
  match value a, value b with
  | Some (ma, ea), Some (mb, eb) =>
      let e := Z.min ea eb in
      Some (ma * 2 ^ (ea - e) * p ?= mb * 2 ^ (eb - e) * q)%Z
  | _, _ => None
  end.

End Exact.

(** ** Concrete scenes in binary64 *)

Module Sample.

Definition pt (a b : float) : @Point JsFloat.number :=
  @mkPoint JsFloat.number a b.

Definition base (name : string) : @BaseElement JsFloat.number :=
  @mkBase JsFloat.number name "#000000" 3%float 1%float.

(** The path of the hit-test scenario. *)
Definition stroke (b : @BaseElement JsFloat.number) : Element :=
  PathElement b [pt 0 0; pt 10 0].

(** A rectangle and a note that overlap around (50,25). *)
Definition rectA : Element :=
  ShapeElement (base "1700000000000") rectangle (pt 0 0) (pt 100 50).

Definition noteB : Element :=
  NoteElement (base "1700000000001") (pt 40 20) "New note" None None.

(** The history of the undo scenario: the commits [A], [A, B], [A]. *)
Definition threeCommits : State :=
  commitAll [[rectA]; [rectA; noteB]; [rectA]] (@initialState JsFloat.number).

(** The same after two undos: cursor 0, two entries to redo. *)
Definition twoUndone : State := moveCursor 0 [rectA] threeCommits.

(** One stroke drawn with the pen: tool, pointer down, move, up. *)
Definition strokeEvents : list (@Event JsFloat.number) :=
  [ev_tool tool_pen; ev_down (pt 0 0) "1700000000002"; ev_move (pt 10 0);
   ev_up].

Definition afterStroke : option State :=
  fold_left
    (fun st ev => match st with Some s => handle ev s | None => None end)
    strokeEvents (Some initialState).

Definition strokeDrawn : State :=
  mkState tool_pen [stroke (base "1700000000002")] None act_none "#000000"
    3%float 1%float [[stroke (base "1700000000002")]] 0.

(** An image that loads late: the file is chosen on the empty board, the
    text tool makes two text boxes, and then the image has loaded. *)
Definition textTool : State :=
  setActiveTool tool_text (@initialState JsFloat.number).

Definition oneBox : State := startDrawing (pt 10 10) "1700000000003" textTool.

Definition twoBoxes : State := startDrawing (pt 300 10) "1700000000004" oneBox.

Definition lateImage : @Event JsFloat.number :=
  @ev_image JsFloat.number initialState (Some (1000%float, 800%float))
    (1000%float, 800%float) (2000%float, 1000%float)
    "data:image/png;base64,AAAA" "1700000000005".

Definition lateLoaded : State :=
  @imageOnLoad JsFloat.number initialState (Some (1000%float, 800%float))
    (1000%float, 800%float) (2000%float, 1000%float)
    "data:image/png;base64,AAAA" "1700000000005" twoBoxes.

Definition lateRenders : list State :=
  [lateLoaded; twoBoxes; oneBox; textTool; initialState].

End Sample.

(** ** Sessions: events in sequence *)

Section Sessions.

Context {N : Number}.

(** One event after another; [None] once a handler has thrown. *)
Fixpoint run (evs : list Event) (st : State) : option State :=
  match evs with
  | [] => Some st
  | ev :: rest =>
      match handle ev st with
      | Some st' => run rest st'
      | None => None
      end
  end.

(** A pointer gesture on the canvas: down at [p0], moves through [ps], up
    ([handleMouseDown], [handleMouseMove], [handleMouseUp]). *)
Definition gesture (p0 : Point) (now : string) (ps : list Point)
  : list Event :=
  ev_down p0 now :: map ev_move ps ++ [ev_up].

(** The scene after the eraser has touched [p]: the expression shared by
    [startDrawing] (lines 348-352) and [draw] (lines 453-457). *)
Definition eraseAt (p : Point) (els : list Element) : list Element :=
  match getElementAtPosition els p with
  | Some elementToErase => removeById (id_of elementToErase) els
  | None => els
  end.

(** The base fields a new element takes from the colour picker. *)
Definition pickedBase (now : string) (st : State) : BaseElement :=
  mkBase now (selectedColor st) (selectedStrokeWidth st) (selectedOpacity st).

End Sessions.

(** ** Ids *)

Section Ids.

Context {N : Number}.

(** The ids of a scene, in paint order. *)
Definition ids (els : list Element) : list string := map id_of els.

(** No two elements of the scene share an id. *)
Definition uniqueIds (els : list Element) : Prop := NoDup (ids els).

(** The scene on display and every scene of the history have unique ids. *)
Definition idsUnique (st : State) : Prop :=
  uniqueIds (elements st) /\ Forall uniqueIds (history st).

(** What an event brings in from outside is new: the id [Date.now()] gives
    to a created element is not yet in the scene (for an image, neither in
    the scene on display nor in the scene of the render the file was chosen
    in), and a loaded project has unique ids. *)
Definition bringsFreshIds (ev : Event) (st : State) : Prop :=
  match ev with
  | ev_down _ now =>
      match activeTool st with
      | tool_select | tool_eraser | tool_image => True
      | _ => ~ In now (ids (elements st))
      end
  | ev_image chosen _ _ _ _ now =>
      ~ In now (ids (elements st)) /\ ~ In now (ids (elements chosen))
  | ev_load projectElements => uniqueIds projectElements
  | _ => True
  end.

End Ids.

(** ** The overlay components

    Text boxes, notes and images are drawn by components of their own
    ([TextEditor.tsx], [StickyNote.tsx], [ImageElement.tsx]), each with
    local state cells.  A handler of a component returns the cells after it
    and the callbacks it made, as the events of the whiteboard they are
    wired to (lines 989-1041 of [Whiteboard.tsx]). *)

(** [e.clientX], [e.clientY] of a mouse event. *)
Record Mouse {N : Number} : Type := mkMouse { clientX : num; clientY : num }.

(** [getBoundingClientRect()] of the component's root, as far as read. *)
Record Rect {N : Number} : Type := mkRect { rectLeft : num; rectTop : num }.

Module TextEditorView.

Section View.

Context {N : Number}.

Local Open Scope num_scope.

Record Props : Type := mkProps {
  id : string;
  initialText : option string;
  position : Point;
  color : string;
  width : option num;
  height : option num
}.

Record ResizeStart : Type := mkResizeStart {
  rsX : num; rsY : num; rsWidth : num; rsHeight : num
}.

Record Cells : Type := mkCells {
  text : string;
  isDragging : bool;
  isResizing : bool;
  dragOffset : Point;
  isEditing : bool;
  textWidth : num;
  textHeight : num;
  resizeStart : ResizeStart
}.

(** What the user can do to a text box. *)
Inductive Ui : Type :=
| ui_mouseDown (e : Mouse) (rect : option Rect)
| ui_mouseMove (e : Mouse)
| ui_mouseUp
| ui_click
| ui_change (value : string)
| ui_blur
| ui_delete
| ui_startResize (e : Mouse).

Definition placeholder : string := "Type here...".

(** The cells at mount: the default parameters [initialText = "Type
    here..."], [width = 250], [height = 150] stand in for [undefined]. *)
Definition init (props : Props) : Cells :=
  mkCells
    (match initialText props with Some t => t | None => placeholder end)
    false false (mkPoint (ofZ 0) (ofZ 0)) false
    (match width props with Some w => w | None => ofZ 250 end)
    (match height props with Some h => h | None => ofZ 150 end)
    (mkResizeStart (ofZ 0) (ofZ 0) (ofZ 0) (ofZ 0)).

Definition handleMouseDown (e : Mouse) (rect : option Rect) (c : Cells)
  : Cells :=
  if negb (isEditing c) && negb (isResizing c) then
    mkCells (text c) true (isResizing c)
      (match rect with
       | Some r => mkPoint (clientX e - rectLeft r) (clientY e - rectTop r)
       | None => dragOffset c
       end)
      (isEditing c) (textWidth c) (textHeight c) (resizeStart c)
  else c.

Definition handleMouseMove (props : Props) (e : Mouse) (c : Cells)
  : Cells * list Event :=
  if isDragging c then
    let newPosition :=
      mkPoint (clientX e - x (dragOffset c)) (clientY e - y (dragOffset c)) in
    (c, [ev_positionChange (id props) newPosition])
  else if isResizing c then
    let dx := clientX e - rsX (resizeStart c) in
    let dy := clientY e - rsY (resizeStart c) in
    let newWidth := max (ofZ 150) (rsWidth (resizeStart c) + dx) in
    let newHeight := max (ofZ 100) (rsHeight (resizeStart c) + dy) in
    (mkCells (text c) (isDragging c) (isResizing c) (dragOffset c)
       (isEditing c) newWidth newHeight (resizeStart c),
     [ev_textResize (id props) newWidth newHeight])
  else (c, []).

Definition handleMouseUp (c : Cells) : Cells :=
  mkCells (text c) false false (dragOffset c) (isEditing c) (textWidth c)
    (textHeight c) (resizeStart c).

(** The placeholder is cleared on the click. *)
Definition handleClick (c : Cells) : Cells :=
  mkCells (if String.eqb (text c) placeholder then "" else text c)
    (isDragging c) (isResizing c) (dragOffset c) true (textWidth c)
    (textHeight c) (resizeStart c).

(** An empty text is not reported: the placeholder comes back instead. *)
Definition handleBlur (props : Props) (c : Cells) : Cells * list Event :=
  if String.eqb (text c) "" then
    (mkCells placeholder (isDragging c) (isResizing c) (dragOffset c) false
       (textWidth c) (textHeight c) (resizeStart c), [])
  else
    (mkCells (text c) (isDragging c) (isResizing c) (dragOffset c) false
       (textWidth c) (textHeight c) (resizeStart c),
     [ev_textChange (id props) (text c)]).

Definition handleTextChange (value : string) (c : Cells) : Cells :=
  mkCells value (isDragging c) (isResizing c) (dragOffset c) (isEditing c)
    (textWidth c) (textHeight c) (resizeStart c).

Definition handleDelete (props : Props) : list Event := [ev_delete (id props)].

Definition startResize (e : Mouse) (c : Cells) : Cells :=
  mkCells (text c) (isDragging c) true (dragOffset c) (isEditing c)
    (textWidth c) (textHeight c)
    (mkResizeStart (clientX e) (clientY e) (textWidth c) (textHeight c)).

Definition step (props : Props) (ui : Ui) (c : Cells) : Cells * list Event :=
  match ui with
  | ui_mouseDown e rect => (handleMouseDown e rect c, [])
  | ui_mouseMove e => handleMouseMove props e c
  | ui_mouseUp => (handleMouseUp c, [])
  | ui_click => (handleClick c, [])
  | ui_change value => (handleTextChange value c, [])
  | ui_blur => handleBlur props c
  | ui_delete => (c, handleDelete props)
  | ui_startResize e => (startResize e c, [])
  end.

(** A sequence of user actions: the cells at the end and every callback
    made, in order. *)
Fixpoint session (props : Props) (uis : list Ui) (c : Cells)
  : Cells * list Event :=
  match uis with
  | [] => (c, [])
  | ui :: rest =>
      let '(c1, evs1) := step props ui c in
      let '(c2, evs2) := session props rest c1 in
      (c2, evs1 ++ evs2)
  end.

End View.

End TextEditorView.

Module StickyNoteView.

Section View.

Context {N : Number}.

Local Open Scope num_scope.

Record Props : Type := mkProps {
  id : string;
  initialText : option string;
  position : Point;
  color : string;
  width : option num;
  height : option num
}.

Record ResizeStart : Type := mkResizeStart {
  rsX : num; rsY : num; rsWidth : num; rsHeight : num
}.

Record Cells : Type := mkCells {
  text : string;
  isDragging : bool;
  isResizing : bool;
  dragOffset : Point;
  isEditing : bool;
  noteWidth : num;
  noteHeight : num;
  resizeStart : ResizeStart
}.

(** What the user can do to a note; [ui_color] is a click on one of the
    five colour buttons. *)
Inductive Ui : Type :=
| ui_mouseDown (e : Mouse) (rect : option Rect)
| ui_mouseMove (e : Mouse)
| ui_mouseUp
| ui_doubleClick
| ui_change (value : string)
| ui_blur
| ui_color (noteColor : string)
| ui_delete
| ui_startResize (e : Mouse).

Definition noteColors : list string :=
  ["#ffeb3b"; "#ff9800"; "#4caf50"; "#2196f3"; "#9c27b0"].

Definition init (props : Props) : Cells :=
  mkCells
    (match initialText props with Some t => t | None => "New note" end)
    false false (mkPoint (ofZ 0) (ofZ 0)) false
    (match width props with Some w => w | None => ofZ 200 end)
    (match height props with Some h => h | None => ofZ 200 end)
    (mkResizeStart (ofZ 0) (ofZ 0) (ofZ 0) (ofZ 0)).

Definition handleMouseDown (e : Mouse) (rect : option Rect) (c : Cells)
  : Cells :=
  if negb (isEditing c) && negb (isResizing c) then
    mkCells (text c) true (isResizing c)
      (match rect with
       | Some r => mkPoint (clientX e - rectLeft r) (clientY e - rectTop r)
       | None => dragOffset c
       end)
      (isEditing c) (noteWidth c) (noteHeight c) (resizeStart c)
  else c.

Definition handleMouseMove (props : Props) (e : Mouse) (c : Cells)
  : Cells * list Event :=
  if isDragging c then
    let newPosition :=
      mkPoint (clientX e - x (dragOffset c)) (clientY e - y (dragOffset c)) in
    (c, [ev_positionChange (id props) newPosition])
  else if isResizing c then
    let dx := clientX e - rsX (resizeStart c) in
    let dy := clientY e - rsY (resizeStart c) in
    let newWidth := max (ofZ 150) (rsWidth (resizeStart c) + dx) in
    let newHeight := max (ofZ 150) (rsHeight (resizeStart c) + dy) in
    (mkCells (text c) (isDragging c) (isResizing c) (dragOffset c)
       (isEditing c) newWidth newHeight (resizeStart c),
     [ev_textResize (id props) newWidth newHeight])
  else (c, []).

Definition handleMouseUp (c : Cells) : Cells :=
  mkCells (text c) false false (dragOffset c) (isEditing c) (noteWidth c)
    (noteHeight c) (resizeStart c).

Definition handleDoubleClick (c : Cells) : Cells :=
  mkCells (text c) (isDragging c) (isResizing c) (dragOffset c) true
    (noteWidth c) (noteHeight c) (resizeStart c).

(** The text is reported on every blur, whatever it is. *)
Definition handleBlur (props : Props) (c : Cells) : Cells * list Event :=
  (mkCells (text c) (isDragging c) (isResizing c) (dragOffset c) false
     (noteWidth c) (noteHeight c) (resizeStart c),
   [ev_textChange (id props) (text c)]).

Definition handleTextChange (value : string) (c : Cells) : Cells :=
  mkCells value (isDragging c) (isResizing c) (dragOffset c) (isEditing c)
    (noteWidth c) (noteHeight c) (resizeStart c).

Definition handleDelete (props : Props) : list Event := [ev_delete (id props)].

Definition startResize (e : Mouse) (c : Cells) : Cells :=
  mkCells (text c) (isDragging c) true (dragOffset c) (isEditing c)
    (noteWidth c) (noteHeight c)
    (mkResizeStart (clientX e) (clientY e) (noteWidth c) (noteHeight c)).

Definition step (props : Props) (ui : Ui) (c : Cells) : Cells * list Event :=
  match ui with
  | ui_mouseDown e rect => (handleMouseDown e rect c, [])
  | ui_mouseMove e => handleMouseMove props e c
  | ui_mouseUp => (handleMouseUp c, [])
  | ui_doubleClick => (handleDoubleClick c, [])
  | ui_change value => (handleTextChange value c, [])
  | ui_blur => handleBlur props c
  | ui_color noteColor => (c, [ev_noteColor (id props) noteColor])
  | ui_delete => (c, handleDelete props)
  | ui_startResize e => (startResize e c, [])
  end.

Fixpoint session (props : Props) (uis : list Ui) (c : Cells)
  : Cells * list Event :=
  match uis with
  | [] => (c, [])
  | ui :: rest =>
      let '(c1, evs1) := step props ui c in
      let '(c2, evs2) := session props rest c1 in
      (c2, evs1 ++ evs2)
  end.

End View.

End StickyNoteView.

Module ImageView.

Section View.

Context {N : Number}.

Local Open Scope num_scope.

Record Props : Type := mkProps {
  id : string;
  position : Point;
  src : string;
  width : num;
  height : num;
  rotation : num
}.

Inductive ResizeMode : Type := free | proportional.

Record Cells : Type := mkCells {
  isDragging : bool;
  isResizing : bool;
  dragOffset : Point;
  resizeStartPos : Point;
  resizeStartDims : num * num;      (* width, height *)
  showControls : bool;
  resizeMode : ResizeMode
}.

(** What the user can do to an image. *)
Inductive Ui : Type :=
| ui_mouseDown (e : Mouse) (rect : option Rect)
| ui_mouseMove (e : Mouse)
| ui_mouseUp
| ui_mouseEnter
| ui_mouseLeave
| ui_rotate
| ui_delete
| ui_startResize (e : Mouse) (mode : ResizeMode).

Definition init (props : Props) : Cells :=
  mkCells false false (mkPoint (ofZ 0) (ofZ 0)) (mkPoint (ofZ 0) (ofZ 0))
    (width props, height props) false proportional.

Definition handleMouseDown (e : Mouse) (rect : option Rect) (c : Cells)
  : Cells :=
  if negb (isResizing c) then
    mkCells true (isResizing c)
      (match rect with
       | Some r => mkPoint (clientX e - rectLeft r) (clientY e - rectTop r)
       | None => dragOffset c
       end)
      (resizeStartPos c) (resizeStartDims c) (showControls c) (resizeMode c)
  else c.

(** The size a resize move reports (lines 64-80). *)
Definition resizedTo (e : Mouse) (c : Cells) : num * num :=
  let dx := clientX e - x (resizeStartPos c) in
  let dy := clientY e - y (resizeStartPos c) in
  match resizeMode c with
  | proportional =>
      let aspectRatio := fst (resizeStartDims c) / snd (resizeStartDims c) in
      let newWidth := max (ofZ 50) (fst (resizeStartDims c) + dx) in
      let newHeight := newWidth / aspectRatio in
      (newWidth, newHeight)
  | free =>
      let newWidth := max (ofZ 50) (fst (resizeStartDims c) + dx) in
      let newHeight := max (ofZ 50) (snd (resizeStartDims c) + dy) in
      (newWidth, newHeight)
  end.

Definition handleMouseMove (props : Props) (e : Mouse) (c : Cells)
  : list Event :=
  if isDragging c && negb (isResizing c) then
    let newPosition :=
      mkPoint (clientX e - x (dragOffset c)) (clientY e - y (dragOffset c)) in
    [ev_positionChange (id props) newPosition]
  else if isResizing c then
    let '(newWidth, newHeight) := resizedTo e c in
    [ev_imageResize (id props) newWidth newHeight]
  else [].

Definition handleMouseUp (c : Cells) : Cells :=
  mkCells false false (dragOffset c) (resizeStartPos c) (resizeStartDims c)
    (showControls c) (resizeMode c).

Definition startResize (props : Props) (e : Mouse) (mode : ResizeMode)
  (c : Cells) : Cells :=
  mkCells (isDragging c) true (dragOffset c)
    (mkPoint (clientX e) (clientY e)) (width props, height props)
    (showControls c) mode.

Definition setShowControls (v : bool) (c : Cells) : Cells :=
  mkCells (isDragging c) (isResizing c) (dragOffset c) (resizeStartPos c)
    (resizeStartDims c) v (resizeMode c).

Definition handleDelete (props : Props) : list Event := [ev_delete (id props)].

(** A quarter turn more, never reduced. *)
Definition handleRotate (props : Props) : list Event :=
  [ev_imageRotate (id props) (rotation props + ofZ 90)].

Definition step (props : Props) (ui : Ui) (c : Cells) : Cells * list Event :=
  match ui with
  | ui_mouseDown e rect => (handleMouseDown e rect c, [])
  | ui_mouseMove e => (c, handleMouseMove props e c)
  | ui_mouseUp => (handleMouseUp c, [])
  | ui_mouseEnter => (setShowControls true c, [])
  | ui_mouseLeave => (setShowControls false c, [])
  | ui_rotate => (c, handleRotate props)
  | ui_delete => (c, handleDelete props)
  | ui_startResize e mode => (startResize props e mode c, [])
  end.

End View.

End ImageView.

(** The props the whiteboard renders each overlay with (lines 989-1041);
    a path or a shape has no overlay. *)
Section Overlays.

Context {N : Number}.

Definition textEditorProps (el : Element) : option TextEditorView.Props :=
  match el with
  | TextElement b p t w h _ =>
      Some (TextEditorView.mkProps (id b) (Some t) p (color b) w h)
  | _ => None
  end.

Definition stickyNoteProps (el : Element) : option StickyNoteView.Props :=
  match el with
  | NoteElement b p t w h =>
      Some (StickyNoteView.mkProps (id b) (Some t) p (color b) w h)
  | _ => None
  end.

Definition imageProps (el : Element) : option ImageView.Props :=
  match el with
  | ImageElement b p s w h r => Some (ImageView.mkProps (id b) p s w h r)
  | _ => None
  end.

End Overlays.

(** ** Kinds of callbacks *)

Section Callbacks.

Context {N : Number}.

(** The events whose handler always records a history entry. *)
Definition alwaysCommits (ev : Event) : bool :=
  match ev with
  | ev_textChange _ _ | ev_delete _ | ev_textResize _ _ _
  | ev_noteColor _ _ | ev_imageResize _ _ _ | ev_imageRotate _ _
  | ev_image _ _ _ _ _ _ => true
  | _ => false
  end.

(** The position reports of a drag. *)
Definition isPositionChange (ev : Event) : bool :=
  match ev with
  | ev_positionChange _ _ => true
  | _ => false
  end.

(** The id an overlay callback is about. *)
Definition callbackId (ev : Event) : option string :=
  match ev with
  | ev_textChange i _ | ev_delete i | ev_positionChange i _
  | ev_textResize i _ _ | ev_noteColor i _ | ev_imageResize i _ _
  | ev_imageRotate i _ => Some i
  | _ => None
  end.

(** A click on the rotate button of the image overlay rendered for the
    element with id [i]: the overlay's props are the element's fields (lines
    1023-1037), the callback goes to [handleImageRotate]. *)
Definition clickRotate (i : string) (st : State) : option State :=
  match find (fun el => String.eqb (id_of el) i) (elements st) with
  | Some el =>
      match imageProps el with
      | Some props => run (ImageView.handleRotate props) st
      | None => Some st
      end
  | None => Some st
  end.

End Callbacks.

(** ** Projects (lines 78-84, 103-214)

    A project keeps a scene under a name.  The cells [projects] and
    [currentProject] stand beside those of the board; a [Date] is its time
    value in milliseconds. *)

Section Projects.

Context {N : Number}.

(** [WhiteboardProject]; the fields [id], [name] and [elements] are named
    [projectId], [projectName] and [savedElements] here. *)
Record WhiteboardProject : Type := mkProject {
  projectId : string;
  projectName : string;
  savedElements : list Element;
  createdAt : Z;
  updatedAt : Z
}.

Record Workspace : Type := mkWorkspace {
  board : State;
  projects : list WhiteboardProject;
  currentProject : option WhiteboardProject
}.

(** [projects.find((p) => p.id === projectId)] *)
Definition findProject (i : string) (ps : list WhiteboardProject)
  : option WhiteboardProject :=
  find (fun p => String.eqb (projectId p) i) ps.

(** [createNewProject]; [now] is [Date.now().toString()], [t1] and [t2]
    the two [new Date()]. *)
Definition createNewProject (name now : string) (t1 t2 : Z) (ws : Workspace)
  : Workspace :=
  let newProject := mkProject now name [] t1 t2 in
  mkWorkspace (loadProject [] (board ws)) (projects ws ++ [newProject])
    (Some newProject).

(** [updateCurrentProject]; [t] is [new Date()]. *)
Definition updateCurrentProject (updatedElements : list Element) (t : Z)
  (ws : Workspace) : Workspace :=
  match currentProject ws with
  | None => ws
  | Some cur =>
      let updatedProject :=
        mkProject (projectId cur) (projectName cur) updatedElements
          (createdAt cur) t in
      mkWorkspace (board ws)
        (map (fun p =>
                if String.eqb (projectId p) (projectId cur)
                then updatedProject else p)
           (projects ws))
        (Some updatedProject)
  end.

(** [switchProject], looking the project up in the list [closure] of the
    render that made the call. *)
Definition switchProjectFrom (closure : list WhiteboardProject) (i : string)
  (ws : Workspace) : Workspace :=
  match findProject i closure with
  | Some project =>
      mkWorkspace (loadProject (savedElements project) (board ws))
        (projects ws) (Some project)
  | None => ws
  end.

Definition switchProject (i : string) (ws : Workspace) : Workspace :=
  switchProjectFrom (projects ws) i ws.

(** [deleteProject]; [now], [t1], [t2] serve the project created when none
    is left. *)
Definition deleteProject (i now : string) (t1 t2 : Z) (ws : Workspace)
  : Workspace :=
  match findProject i (projects ws) with
  | None => ws
  | Some _ =>
      let keep := fun p => negb (String.eqb (projectId p) i) in
      let ws1 :=
        mkWorkspace (board ws) (filter keep (projects ws))
          (currentProject ws) in
      match currentProject ws with
      | Some cur =>
          if String.eqb (projectId cur) i then
            match filter keep (projects ws) with
            | first :: _ =>
                switchProjectFrom (projects ws) (projectId first) ws1
            | [] => createNewProject "Untitled Whiteboard" now t1 t2 ws1
            end
          else ws1
      | None => ws1
      end
  end.

(** The effect of lines 148-152, run after a render that changed
    [elements]: the scene is saved into the current project. *)
Definition syncEffect (t : Z) (ws : Workspace) : Workspace :=
  updateCurrentProject (elements (board ws)) t ws.

(** The [reduce] of the mount effect (lines 122-124): the project saved
    last. *)
Definition mostRecent (parsedProjects : list WhiteboardProject)
  : option WhiteboardProject :=
  match parsedProjects with
  | [] => None
  | first :: _ =>
      Some (fold_left
              (fun latest project =>
                 if (updatedAt project >? updatedAt latest)%Z
                 then project else latest)
              parsedProjects first)
  end.

(** The mount effect (lines 110-140): [saved] is the parsed list of
    [localStorage], [None] when there is none or it does not parse. *)
Definition mountEffect (saved : option (list WhiteboardProject))
  (now : string) (t1 t2 : Z) (ws : Workspace) : Workspace :=
  match saved with
  | Some parsedProjects =>
      match mostRecent parsedProjects with
      | Some recent =>
          mkWorkspace (setElements (savedElements recent) (board ws))
            parsedProjects (Some recent)
      | None => mkWorkspace (board ws) parsedProjects (currentProject ws)
      end
  | None => createNewProject "Untitled Whiteboard" now t1 t2 ws
  end.

(** The current project is one of the list. *)
Definition currentListed (ws : Workspace) : Prop :=
  forall c, currentProject ws = Some c -> In c (projects ws).

(** Scenes saved one after another into the current project. *)
Definition saveAll (saves : list (list Element * Z)) (ws : Workspace)
  : Workspace :=
  fold_left (fun w s => updateCurrentProject (fst s) (snd s) w) saves ws.

End Projects.

(** ** More sample data *)

Module Board.

(** The empty board with the pen picked, and with the rectangle tool. *)
Definition penReady : State :=
  setActiveTool tool_pen (@initialState JsFloat.number).

Definition shapeReady : State :=
  setActiveTool (tool_shape rectangle) (@initialState JsFloat.number).

(** The rectangle and the note of [Sample] on display, nothing committed. *)
Definition overlapping : State :=
  setElements [Sample.rectA; Sample.noteB] (@initialState JsFloat.number).

Definition eraserReady : State := setActiveTool tool_eraser overlapping.

(** A text box that carries a text and no size. *)
Definition textC : Element :=
  TextElement (Sample.base "1700000000003") (Sample.pt 10 10) "hello"
    None None noFormat.

(** The text box committed, then retyped and undone: the editor mounted
    for it holds the text typed, the scene shows the old text again. *)
Definition textProps : @TextEditorView.Props JsFloat.number :=
  TextEditorView.mkProps "1700000000003" (Some "hello") (Sample.pt 10 10)
    "#000000" None None.

Definition typedCells : TextEditorView.Cells :=
  fst (TextEditorView.session textProps
         [TextEditorView.ui_click; TextEditorView.ui_change "bye";
          TextEditorView.ui_blur]
         (TextEditorView.init textProps)).

Definition retyped : State :=
  handleTextChange "1700000000003" "bye"
    (commitScene [textC] (@initialState JsFloat.number)).

Definition undone : State := moveCursor 0 [textC] retyped.

Definition oneNote : State :=
  setElements [Sample.noteB] (@initialState JsFloat.number).

(** An image over the reals, not rotated. *)
Definition imageD (r : R) : @Element Ideal.number :=
  ImageElement (@mkBase Ideal.number "1700000000004" "#000000" 3%R 1%R)
    (@mkPoint Ideal.number 100%R 100%R) "data:image/png;base64,AAAA"
    200%R 100%R r.

Definition oneImage : @State Ideal.number :=
  setElements [imageD 0%R] (@initialState Ideal.number).

(** The corners of a circle over the reals. *)
Definition cornerS : @Point Ideal.number := @mkPoint Ideal.number 0%R 0%R.
Definition cornerE : @Point Ideal.number := @mkPoint Ideal.number 100%R 50%R.

(** Two stored projects, the first one open. *)
Definition projectP : @WhiteboardProject JsFloat.number :=
  mkProject "1700000000010" "First" [Sample.rectA] 100 200.

Definition projectQ : @WhiteboardProject JsFloat.number :=
  mkProject "1700000000011" "Second" [Sample.noteB] 100 300.

Definition twoProjects : Workspace :=
  switchProject "1700000000010"
    (mkWorkspace (@initialState JsFloat.number) [projectP; projectQ] None).

End Board.

(** * Properties *)

(** ** Numbers *)

(** The literal [0.8] is the quotient [8 / 10] rounded once. *)
Lemma lit_0_8_float :
  @lit_0_8 JsFloat.number = PrimFloat.div 8%float 10%float.
Proof. reflexivity. Qed.

Section HitTest.

Context {N : Number}.

Local Open Scope num_scope.

Lemma getElementAtPosition_snoc (els : list Element) (el : Element)
  (p : Point) :
  getElementAtPosition (els ++ [el]) p =
  if hitsElement p el then Some el else getElementAtPosition els p.
Proof.
  unfold getElementAtPosition. rewrite rev_app_distr. reflexivity.
Qed.

Lemma getElementAtPosition_Some (els : list Element) (p : Point)
  (el : Element) :
  getElementAtPosition els p = Some el ->
  In el els /\ hitsElement p el = true.
Proof.
  unfold getElementAtPosition. intros H.
  apply find_some in H. destruct H as [Hin Hhit].
  split; [now apply in_rev | exact Hhit].
Qed.

Lemma getElementAtPosition_None (els : list Element) (p : Point) :
  getElementAtPosition els p = None <->
  forall el, In el els -> hitsElement p el = false.
Proof.
  unfold getElementAtPosition. split.
  - intros H el Hin. apply (find_none _ _ H). rewrite <- in_rev. exact Hin.
  - intros H.
    assert (Hall : forall el, In el (rev els) -> hitsElement p el = false).
    { intros el Hin. apply H. rewrite in_rev. exact Hin. }
    clear H. induction (rev els) as [|a l IH]; [reflexivity|].
    simpl. rewrite (Hall a (or_introl eq_refl)).
    apply IH. intros el Hin. apply Hall. now right.
Qed.

(** The scan stops at the last element that accepts the point. *)
Lemma getElementAtPosition_last_hit (pre post : list Element) (el : Element)
  (p : Point) :
  hitsElement p el = true ->
  (forall e, In e post -> hitsElement p e = false) ->
  getElementAtPosition (pre ++ el :: post) p = Some el.
Proof.
  intros Hel Hpost. induction post as [|e post IH] using rev_ind.
  - rewrite getElementAtPosition_snoc, Hel. reflexivity.
  - replace (pre ++ el :: post ++ [e]) with ((pre ++ el :: post) ++ [e])
      by (rewrite <- app_assoc; reflexivity).
    rewrite getElementAtPosition_snoc.
    rewrite (Hpost e) by (apply in_or_app; right; now left).
    apply IH. intros e' Hin. apply Hpost. apply in_or_app. now left.
Qed.

(** The path loop accepts exactly when some consecutive pair is near. *)
Lemma pathHit_spec (p : Point) (points : list Point) :
  pathHit p points = true <->
  exists j p1 p2,
    nth_error points j = Some p1 /\ nth_error points (S j) = Some p2 /\
    (distanceToSegment p p1 p2 <? ofZ 10) = true.
Proof.
  induction points as [|a rest IH].
  - split; [discriminate|]. intros (j & p1 & p2 & H1 & _).
    destruct j; discriminate.
  - destruct rest as [|b rest'].
    + split; [discriminate|]. intros (j & p1 & p2 & H1 & H2 & _).
      destruct j as [|[|j]]; discriminate.
    + change (pathHit p (a :: b :: rest')) with
        (if distanceToSegment p a b <? ofZ 10 then true
         else pathHit p (b :: rest')).
      destruct (distanceToSegment p a b <? ofZ 10) eqn:Hab.
      * split; [|reflexivity]. intros _. exists 0%nat, a, b.
        split; [reflexivity|]. split; [reflexivity|]. exact Hab.
      * rewrite IH. split.
        -- intros (j & p1 & p2 & H1 & H2 & H3).
           exists (S j), p1, p2. now repeat split.
        -- intros (j & p1 & p2 & H1 & H2 & H3).
           destruct j as [|j].
           ++ simpl in H1, H2. injection H1 as <-. injection H2 as <-.
              congruence.
           ++ exists j, p1, p2. now repeat split.
Qed.

End HitTest.

(** ** Arrays *)

Lemma slice0_firstn {A : Type} (arr : list A) (e : Z) :
  (0 <= e)%Z -> slice0 arr e = firstn (Z.to_nat e) arr.
Proof.
  intros He. unfold slice0.
  destruct (e <? 0)%Z eqn:E; [apply Z.ltb_lt in E; lia|].
  destruct (Z.le_ge_cases e (Z.of_nat (length arr))) as [Hle|Hge].
  - now rewrite Z.min_l.
  - rewrite Z.min_r by exact Hge. rewrite Nat2Z.id.
    rewrite !firstn_all2; [reflexivity| lia | lia].
Qed.

Lemma slice0_length {A : Type} (arr : list A) (e : Z) :
  (0 <= e <= Z.of_nat (length arr))%Z ->
  length (slice0 arr e) = Z.to_nat e.
Proof.
  intros He. rewrite slice0_firstn by lia. rewrite length_firstn. lia.
Qed.

Lemma slice0_app {A : Type} (pre post : list A) :
  slice0 (pre ++ post) (Z.of_nat (length pre)) = pre.
Proof.
  rewrite slice0_firstn by lia. rewrite Nat2Z.id.
  rewrite firstn_app, Nat.sub_diag, firstn_all. simpl. apply app_nil_r.
Qed.

Lemma lookup_in_range {A : Type} (arr : list A) (i : Z) :
  (0 <= i < Z.of_nat (length arr))%Z -> exists a, lookup arr i = Some a.
Proof.
  intros Hi. unfold lookup.
  destruct (i <? 0)%Z eqn:E; [apply Z.ltb_lt in E; lia|].
  destruct (nth_error arr (Z.to_nat i)) as [a|] eqn:Hn; [now exists a|].
  apply nth_error_None in Hn. lia.
Qed.

Lemma lookup_snoc {A : Type} (arr : list A) (a : A) :
  lookup (arr ++ [a]) (Z.of_nat (length arr)) = Some a.
Proof.
  unfold lookup.
  destruct (Z.of_nat (length arr) <? 0)%Z eqn:E; [apply Z.ltb_lt in E; lia|].
  rewrite Nat2Z.id, nth_error_app2, Nat.sub_diag by lia. reflexivity.
Qed.

Lemma last_default {A : Type} (l : list A) (d d' : A) :
  l <> [] -> last l d = last l d'.
Proof.
  induction l as [|a [|b l] IH]; intros Hne.
  - contradiction.
  - reflexivity.
  - change (last (b :: l) d = last (b :: l) d'). apply IH. discriminate.
Qed.

Section HistoryFacts.

Context {N : Number}.

Lemma moveCursor_self (st : State) :
  moveCursor (historyIndex st) (elements st) st = st.
Proof. destruct st; reflexivity. Qed.

Lemma moveCursor_twice (i j : Z) (s t : list Element) (st : State) :
  moveCursor i s (moveCursor j t st) = moveCursor i s st.
Proof. reflexivity. Qed.

Lemma handleUndo_noop (st : State) :
  (historyIndex st <= 0)%Z -> handleUndo st = Some st.
Proof.
  intros H. unfold handleUndo.
  destruct (historyIndex st >? 0)%Z eqn:E; [|reflexivity].
  apply Z.gtb_lt in E. lia.
Qed.

Lemma handleRedo_noop (st : State) :
  (Z.of_nat (length (history st)) - 1 <= historyIndex st)%Z ->
  handleRedo st = Some st.
Proof.
  intros H. unfold handleRedo.
  destruct (historyIndex st <? Z.of_nat (length (history st)) - 1)%Z eqn:E;
    [|reflexivity].
  apply Z.ltb_lt in E. lia.
Qed.

Lemma handleUndo_moves (st : State) (scene : list Element) :
  (0 < historyIndex st)%Z ->
  lookup (history st) (historyIndex st - 1) = Some scene ->
  handleUndo st = Some (moveCursor (historyIndex st - 1) scene st).
Proof.
  intros H Hl. unfold handleUndo.
  destruct (historyIndex st >? 0)%Z eqn:E.
  - rewrite Hl. reflexivity.
  - rewrite Z.gtb_ltb in E. apply Z.ltb_ge in E. lia.
Qed.

Lemma handleRedo_moves (st : State) (scene : list Element) :
  (historyIndex st < Z.of_nat (length (history st)) - 1)%Z ->
  lookup (history st) (historyIndex st + 1) = Some scene ->
  handleRedo st = Some (moveCursor (historyIndex st + 1) scene st).
Proof.
  intros H Hl. unfold handleRedo.
  destruct (historyIndex st <? Z.of_nat (length (history st)) - 1)%Z eqn:E.
  - rewrite Hl. reflexivity.
  - apply Z.ltb_ge in E. lia.
Qed.



(** A commit at cursor [i] leaves [i + 2] entries and the cursor on the
    last of them. *)
Lemma commit_length (h : list (list Element)) (i : Z) (scene : list Element) :
  (-1 <= i < Z.of_nat (length h))%Z ->
  Z.of_nat (length (slice0 h (i + 1) ++ [scene])) = (i + 2)%Z.
Proof.
  intros Hi. rewrite length_app, slice0_length by lia. simpl. lia.
Qed.

Lemma commit_cursorInRange (scene : list Element) (st : State) :
  cursorInRange st -> cursorInRange (commit scene st).
Proof.
  unfold cursorInRange. intros Hi. simpl.
  rewrite commit_length by exact Hi. lia.
Qed.

Lemma commitScene_cursorInRange (scene : list Element) (st : State) :
  cursorInRange st -> cursorInRange (commitScene scene st).
Proof. intros Hi. unfold commitScene. now apply commit_cursorInRange. Qed.

Lemma handleUndo_cursorInRange (st st' : State) :
  cursorInRange st -> handleUndo st = Some st' -> cursorInRange st'.
Proof.
  unfold cursorInRange, handleUndo. intros Hi H.
  destruct (historyIndex st >? 0)%Z eqn:E.
  - apply Z.gtb_lt in E.
    destruct (lookup (history st) (historyIndex st - 1)); [|discriminate].
    injection H as <-. simpl. lia.
  - injection H as <-. exact Hi.
Qed.

Lemma handleRedo_cursorInRange (st st' : State) :
  cursorInRange st -> handleRedo st = Some st' -> cursorInRange st'.
Proof.
  unfold cursorInRange, handleRedo. intros Hi H.
  destruct (historyIndex st <? Z.of_nat (length (history st)) - 1)%Z eqn:E.
  - apply Z.ltb_lt in E.
    destruct (lookup (history st) (historyIndex st + 1)); [|discriminate].
    injection H as <-. simpl. lia.
  - injection H as <-. exact Hi.
Qed.

Lemma draw_history (point : Point) (st st' : State) :
  draw point st = Some st' ->
  history st' = history st /\ historyIndex st' = historyIndex st.
Proof.
  unfold draw. intros H.
  destruct (action st).
  - now injection H as <-.
  - destruct (activeTool st); try (injection H as <-; now split);
      destruct (lookup (elements st) _) as [[]|]; try discriminate;
      injection H as <-; now split.
  - now injection H as <-.
  - destruct (getElementAtPosition (elements st) point);
      injection H as <-; now split.
Qed.

Lemma startDrawing_cursorInRange (point : Point) (now : string) (st : State) :
  cursorInRange st -> cursorInRange (startDrawing point now st).
Proof.
  intros Hi. unfold startDrawing.
  destruct (activeTool st); try exact Hi;
    try (apply commitScene_cursorInRange; exact Hi).
  - destruct (getElementAtPosition (elements st) point) as [[]|]; exact Hi.
  - destruct (getElementAtPosition (elements st) point).
    + apply commitScene_cursorInRange. exact Hi.
    + exact Hi.
Qed.

Lemma finishDrawing_cursorInRange (st : State) :
  cursorInRange st -> cursorInRange (finishDrawing st).
Proof.
  intros Hi. unfold finishDrawing.
  destruct (action st); try exact Hi.
  change (cursorInRange (commit (elements st) st)).
  now apply commit_cursorInRange.
Qed.

(** An image load that is not late keeps the cursor in range; a late one
    does not: the history is cut at the cursor of the render the file was
    chosen in, while the cursor moves on from where it stands. *)
Lemma imageOnLoad_cursorInRange (chosen : State)
  (canvas : option (num * num)) (inner img : num * num) (src now : string)
  (st : State) :
  cursorInRange st -> (historyIndex st <= historyIndex chosen)%Z ->
  cursorInRange (imageOnLoad chosen canvas inner img src now st).
Proof.
  unfold cursorInRange, imageOnLoad. intros Hi Hle. simpl.
  rewrite length_app, slice0_firstn by lia. rewrite length_firstn.
  simpl. lia.
Qed.

Lemma imageOnLoad_late (chosen : State)
  (canvas : option (num * num)) (inner img : num * num) (src now : string)
  (st : State) :
  (-1 <= historyIndex chosen < historyIndex st)%Z ->
  ~ cursorInRange (imageOnLoad chosen canvas inner img src now st).
Proof.
  unfold cursorInRange, imageOnLoad. intros Hlate. simpl.
  rewrite length_app, slice0_firstn by lia. rewrite length_firstn.
  simpl. lia.
Qed.

(** Every handler but a late image load keeps the cursor in range. *)
Lemma handle_cursorInRange (ev : Event) (st st' : State) :
  cursorInRange st -> lateLoad ev st = false ->
  handle ev st = Some st' -> cursorInRange st'.
Proof.
  intros Hi Hl H. destruct ev; simpl in H;
    try (injection H as <-;
         first [ exact Hi
               | apply commitScene_cursorInRange; exact Hi
               | apply startDrawing_cursorInRange; exact Hi
               | apply finishDrawing_cursorInRange; exact Hi
               | unfold cursorInRange; simpl; lia ]).
  - destruct (draw_history _ _ H) as [Hh Hx].
    unfold cursorInRange. rewrite Hh, Hx. exact Hi.
  - injection H as <-. simpl in Hl. apply Z.ltb_ge in Hl.
    now apply imageOnLoad_cursorInRange.
  - eapply handleUndo_cursorInRange; eassumption.
  - eapply handleRedo_cursorInRange; eassumption.
Qed.

(** Along a run without a late image load every render has the cursor in
    range. *)
Lemma rendered_cursorInRange (rs : list State) :
  rendered (fun ev st => lateLoad ev st = false) rs ->
  Forall cursorInRange rs.
Proof.
  induction 1 as [|ev st st' past _ IH _ Hl H].
  - repeat constructor; simpl; lia.
  - constructor; [|exact IH].
    eapply handle_cursorInRange; [|exact Hl|exact H].
    now inversion IH.
Qed.


End HistoryFacts.

(** ** The history claims *)

Section HistoryClaims.

Context {N : Number}.



Lemma updateById_absent (patch : Element -> Element) (id0 : string)
  (els : list Element) :
  (forall el, In el els -> id_of el <> id0) ->
  updateById patch id0 els = els.
Proof.
  intros Habs. unfold updateById.
  rewrite <- (map_id els) at 2. apply map_ext_in.
  intros el Hin. destruct (String.eqb_spec (id_of el) id0) as [E|_].
  - now apply Habs in E.
  - reflexivity.
Qed.

Lemma removeById_absent (id0 : string) (els : list Element) :
  (forall el, In el els -> id_of el <> id0) ->
  removeById id0 els = els.
Proof.
  intros Habs. unfold removeById. induction els as [|el els IH].
  - reflexivity.
  - simpl. destruct (String.eqb_spec (id_of el) id0) as [E|_].
    + exfalso. apply (Habs el); [now left | exact E].
    + simpl. f_equal. apply IH. intros e Hin. apply Habs. now right.
Qed.

Lemma setElements_self (st : State) : setElements (elements st) st = st.
Proof. destruct st; reflexivity. Qed.

(** Where the cursor is in range, undo and redo never read outside the
    history: [canUndo] holds exactly when an undo moves the cursor, and
    [canRedo] exactly when a redo does. *)
Lemma cursorInRange_undo_redo (st : State) :
  cursorInRange st ->
  (exists st', handleUndo st = Some st' /\
     (canUndo st = true <-> historyIndex st' = (historyIndex st - 1)%Z) /\
     (canUndo st = false <-> st' = st)) /\
  (exists st', handleRedo st = Some st' /\
     (canRedo st = true <-> historyIndex st' = (historyIndex st + 1)%Z) /\
     (canRedo st = false <-> st' = st)).
Proof.
  intros Hi. unfold cursorInRange in Hi.
  split.
  - unfold canUndo. destruct (historyIndex st >? 0)%Z eqn:E.
    + rewrite Z.gtb_ltb in E. apply Z.ltb_lt in E.
      destruct (@lookup_in_range _ (history st) (historyIndex st - 1))
        as [sc Hsc]; [lia|].
      exists (moveCursor (historyIndex st - 1) sc st).
      split; [now apply handleUndo_moves|].
      split; [now split|].
      split; [discriminate|]. intros Heq.
      apply (f_equal historyIndex) in Heq. simpl in Heq. lia.
    + rewrite Z.gtb_ltb in E. apply Z.ltb_ge in E.
      exists st. split; [now apply handleUndo_noop|].
      split; [split; [discriminate | lia] | now split].
  - unfold canRedo.
    destruct (historyIndex st <? Z.of_nat (length (history st)) - 1)%Z eqn:E.
    + apply Z.ltb_lt in E.
      destruct (@lookup_in_range _ (history st) (historyIndex st + 1))
        as [sc Hsc]; [lia|].
      exists (moveCursor (historyIndex st + 1) sc st).
      split; [now apply handleRedo_moves|].
      split; [now split|].
      split; [discriminate|]. intros Heq.
      apply (f_equal historyIndex) in Heq. simpl in Heq. lia.
    + apply Z.ltb_ge in E.
      exists st. split; [apply handleRedo_noop; lia|].
      split; [split; [discriminate | lia] | now split].
Qed.

(** C7: when no element of the scene has the given id, the edits by id
    (text change, position change, resize, recolor, image resize and
    rotation, through [updateById] with any patch) and the removal by id
    (deletion, erase) leave the element sequence as it is; an undo with the
    cursor at 0 or below and a redo with the cursor on the last entry leave
    the whole state as it is.  None of them fails. *)
Theorem not_found_is_silent_noop (st : State) (id0 : string) :
  (forall el, In el (elements st) -> id_of el <> id0) ->
  (forall patch, updateById patch id0 (elements st) = elements st) /\
  removeById id0 (elements st) = elements st /\
  (forall newText, elements (handleTextChange id0 newText st) = elements st) /\
  (forall p, handlePositionChange id0 p st = st) /\
  (forall w h, elements (handleTextResize id0 w h st) = elements st) /\
  (forall c, elements (handleNoteColorChange id0 c st) = elements st) /\
  (forall w h, elements (handleImageResize id0 w h st) = elements st) /\
  (forall r, elements (handleImageRotate id0 r st) = elements st) /\
  elements (handleElementDelete id0 st) = elements st /\
  ((historyIndex st <= 0)%Z -> handleUndo st = Some st) /\
  (historyIndex st = (Z.of_nat (length (history st)) - 1)%Z ->
   handleRedo st = Some st).
Proof.
  intros Habs.
  pose proof (fun patch => @updateById_absent patch _ _ Habs) as Hu.
  pose proof (@removeById_absent _ _ Habs) as Hrm.
  repeat split; intros; simpl; try (now rewrite ?Hu, ?Hrm).
  - unfold handlePositionChange. rewrite Hu. apply setElements_self.
  - now apply handleUndo_noop.
  - apply handleRedo_noop. lia.
Qed.

(** C10: deleting by id always commits: one entry, the scene without the
    id, is appended after the entries up to the cursor, and the cursor moves
    up by one, so that the history has cursor + 2 entries, one more than
    before when the cursor was on the last entry.  When no element has the
    id the scene stays as it is, and yet the appended entry is a copy of it
    and the state has changed. *)
Theorem delete_always_commits (st : State) (id0 : string) :
  cursorInRange st ->
  let st' := handleElementDelete id0 st in
  history st' =
    slice0 (history st) (historyIndex st + 1) ++
    [removeById id0 (elements st)] /\
  historyIndex st' = (historyIndex st + 1)%Z /\
  Z.of_nat (length (history st')) = (historyIndex st + 2)%Z /\
  (historyIndex st = (Z.of_nat (length (history st)) - 1)%Z ->
   history st' = history st ++ [removeById id0 (elements st)] /\
   length (history st') = S (length (history st))) /\
  ((forall el, In el (elements st) -> id_of el <> id0) ->
   elements st' = elements st /\
   lookup (history st') (historyIndex st') = Some (elements st) /\
   st' <> st).
Proof.
  intros Hi st'. unfold cursorInRange in Hi.
  split; [reflexivity|]. split; [reflexivity|].
  split; [simpl; now apply commit_length|].
  split.
  - intros Hlast.
    assert (Hs : slice0 (history st) (historyIndex st + 1) = history st).
    { pose proof (slice0_app (history st) []) as Hs.
      rewrite app_nil_r in Hs. rewrite <- Hs at 2. f_equal. lia. }
    simpl. rewrite Hs.
    split; [reflexivity|]. rewrite length_app. simpl. lia.
  - intros Habs. pose proof (@removeById_absent _ _ Habs) as Hrm.
    split; [exact Hrm|]. split.
    + simpl. rewrite Hrm.
      rewrite <- (lookup_snoc (slice0 (history st) (historyIndex st + 1))
                    (elements st)).
      f_equal. rewrite slice0_length by lia. lia.
    + intros Heq. apply (f_equal historyIndex) in Heq. simpl in Heq. lia.
Qed.

End HistoryClaims.

(** ** The hit-test claims *)

Section HitTestClaims.

Context {N : Number}.

Local Open Scope num_scope.

(** C3: when A was appended before B and the point lies in the matching
    region of both, the hit-test answers B: in the scene of the two, and in
    any scene where no element above B accepts the point (the scan runs from
    the last element down and stops at the first that accepts). *)
Theorem hitTest_topmost_wins (A B : Element) (p : Point) :
  hitsElement p A = true -> hitsElement p B = true ->
  getElementAtPosition [A; B] p = Some B /\
  (forall pre mid post : list Element,
      (forall e, In e post -> hitsElement p e = false) ->
      getElementAtPosition (pre ++ A :: mid ++ B :: post) p = Some B).
Proof.
  intros HA HB. split.
  - apply (@getElementAtPosition_last_hit _ [A] [] B p HB).
    intros e [].
  - intros pre mid post Hpost.
    replace (pre ++ A :: mid ++ B :: post)
      with ((pre ++ A :: mid) ++ B :: post)
      by (rewrite <- app_assoc; reflexivity).
    now apply getElementAtPosition_last_hit.
Qed.

(** C9: the hit-test never answers a path of exactly one point, whatever
    the scene and the point: a one-point path has no pair of consecutive
    points, so even its own point misses it. *)
Theorem single_point_path_never_hit (els : list Element) (p : Point)
  (b : BaseElement) (pt : Point) :
  getElementAtPosition els p <> Some (PathElement b [pt]) /\
  hitsElement pt (PathElement b [pt]) = false /\
  getElementAtPosition [PathElement b [pt]] pt = None.
Proof.
  split; [|split; reflexivity].
  intros H. apply getElementAtPosition_Some in H.
  destruct H as [_ H]. discriminate H.
Qed.

End HitTestClaims.

(** C8: a path is hit exactly when some pair of consecutive points spans
    a segment whose [distanceToSegment] from the point is below 10; and in
    binary64, the scene holding only the path (0,0),(10,0) answers that path
    at (5,1), at distance 1, and nothing at (5,50). *)
Theorem path_hit_iff_near_segment :
  (forall (N : Number) (b : BaseElement) (points : list Point) (p : Point),
      let near :=
        exists j p1 p2,
          nth_error points j = Some p1 /\
          nth_error points (S j) = Some p2 /\
          ltb (distanceToSegment p p1 p2) (ofZ 10) = true in
      (hitsElement p (PathElement b points) = true <-> near) /\
      (getElementAtPosition [PathElement b points] p =
         Some (PathElement b points) <-> near) /\
      (getElementAtPosition [PathElement b points] p = None <-> ~ near)) /\
  (forall b : @BaseElement JsFloat.number,
      distanceToSegment (Sample.pt 5 1) (Sample.pt 0 0) (Sample.pt 10 0)
        = 1%float /\
      getElementAtPosition [Sample.stroke b] (Sample.pt 5 1)
        = Some (Sample.stroke b) /\
      distanceToSegment (Sample.pt 5 50) (Sample.pt 0 0) (Sample.pt 10 0)
        = 50%float /\
      getElementAtPosition [Sample.stroke b] (Sample.pt 5 50) = None).
Proof.
  split.
  - intros N b points p near.
    assert (Hspec : pathHit p points = true <-> near)
      by apply pathHit_spec.
    assert (Hscene : getElementAtPosition [PathElement b points] p =
                     if pathHit p points then Some (PathElement b points)
                     else None) by reflexivity.
    split; [exact Hspec|]. rewrite Hscene.
    destruct (pathHit p points).
    + split; split; intros H; try reflexivity; try discriminate.
      * now apply Hspec.
      * exfalso. apply H. now apply Hspec.
    + split; split; intros H; try reflexivity; try discriminate.
      * apply Hspec in H. discriminate.
      * intros Hn. apply Hspec in Hn. discriminate.
  - intros b. repeat split; reflexivity.
Qed.

(** ** The distance in binary64 *)

(** The code in binary64, branch by branch: which point the distance is
    measured to.  A parameter that is NaN is neither below 0 nor above 1. *)
Lemma distanceToSegment_binary64_cases (P A B : @Point JsFloat.number) :
  let C := (x B - x A)%float in
  let D := (y B - y A)%float in
  let lenSq := (C * C + D * D)%float in
  let t := (((x P - x A) * C + (y P - y A) * D) / lenSq)%float in
  let to := fun Q : @Point JsFloat.number =>
    PrimFloat.sqrt
      ((x P - x Q) * (x P - x Q) + (y P - y Q) * (y P - y Q))%float in
  distanceToSegment P A B =
  if PrimFloat.eqb lenSq 0 then to A
  else if PrimFloat.ltb t 0 then to A
  else if PrimFloat.ltb 1 t then to B
  else to (@mkPoint JsFloat.number (x A + t * C)%float (y A + t * D)%float).
Proof.
  cbv beta iota zeta delta
    [distanceToSegment add sub mul div sqrt ltb eqb ofZ num gtb neqb
     JsFloat.number JsFloat.float_ofZ negb x y].
  destruct (PrimFloat.eqb _ _); [reflexivity|].
  destruct (PrimFloat.ltb _ _); [reflexivity|].
  destruct (PrimFloat.ltb _ _); reflexivity.
Qed.

(** ** Geometry over the reals *)

Section IdealGeometry.

Import Plane.

Local Open Scope R_scope.

Ltac ideal_ops :=
  cbv beta iota zeta delta
    [distanceToSegment displayBox add sub mul div sqrt abs min max ltb leb
     eqb truthy ofZ lit_0_8 num gtb geb neqb Ideal.number Ideal.Rltb
     Ideal.Rleb Ideal.Reqb px py projection pointDistance along lineDistance
     perpendicular negb x y].

(** The code over the reals, branch by branch. *)
Lemma distanceToSegment_cases (P A B : RPoint) :
  distanceToSegment P A B =
  if Rlt_dec (segmentParam P A B) 0 then pointDistance P A
  else if Rlt_dec 1 (segmentParam P A B) then pointDistance P B
  else pointDistance P (along A B (segmentParam P A B)).
Proof.
  destruct P as [p1 p2], A as [a1 a2], B as [b1 b2].
  unfold segmentParam. ideal_ops.
  destruct (Req_dec_T _ 0) as [E|E].
  - destruct (Rlt_dec (-1) 0) as [_|H]; [reflexivity | lra].
  - destruct (Rlt_dec _ 0) as [H|H]; [reflexivity|].
    destruct (Rlt_dec 1 _) as [H1|H1]; reflexivity.
Qed.

Lemma sum_sq_zero (c d : R) : c * c + d * d = 0 -> c = 0 /\ d = 0.
Proof. intros H. split; nra. Qed.

Lemma lenSq_nonzero (A B : RPoint) :
  A <> B ->
  (px B - px A) * (px B - px A) + (py B - py A) * (py B - py A) <> 0.
Proof.
  destruct A as [a1 a2], B as [b1 b2]. unfold px, py. simpl. intros Hne H.
  apply sum_sq_zero in H. destruct H as [H1 H2].
  apply Hne. f_equal; lra.
Qed.

Lemma segmentParam_distinct (P A B : RPoint) :
  A <> B -> segmentParam P A B = projection P A B.
Proof.
  intros Hne. unfold segmentParam.
  destruct (Req_dec_T _ 0) as [E|E]; [|reflexivity].
  now apply lenSq_nonzero in E.
Qed.

Lemma segmentParam_degenerate (P A : RPoint) : segmentParam P A A = -1.
Proof.
  unfold segmentParam.
  destruct (Req_dec_T _ 0) as [E|E]; [reflexivity|].
  exfalso. apply E. ring.
Qed.

(** The foot of the projection is where the line meets its perpendicular
    through [P]. *)
Lemma foot_perpendicular (P A B : RPoint) :
  A <> B -> perpendicular P (along A B (projection P A B)) A B.
Proof.
  intros Hne. pose proof (lenSq_nonzero Hne) as HL.
  destruct P as [p1 p2], A as [a1 a2], B as [b1 b2].
  unfold perpendicular, along, projection, px, py in *. simpl in *.
  field. exact HL.
Qed.

(** No point of the line is nearer to [P] than the foot. *)
Lemma foot_is_nearest (P A B : RPoint) (s : R) :
  A <> B ->
  pointDistance P (along A B (projection P A B)) <=
  pointDistance P (along A B s).
Proof.
  intros Hne. pose proof (lenSq_nonzero Hne) as HL.
  pose proof (foot_perpendicular P Hne) as Hperp.
  destruct P as [p1 p2], A as [a1 a2], B as [b1 b2].
  unfold perpendicular, pointDistance, along, px, py in *. simpl in *.
  set (t := projection _ _ _) in *.
  apply sqrt_le_1_alt.
  assert (Hd : (p1 - (a1 + s * (b1 - a1))) * (p1 - (a1 + s * (b1 - a1))) +
               (p2 - (a2 + s * (b2 - a2))) * (p2 - (a2 + s * (b2 - a2))) =
               (p1 - (a1 + t * (b1 - a1))) * (p1 - (a1 + t * (b1 - a1))) +
               (p2 - (a2 + t * (b2 - a2))) * (p2 - (a2 + t * (b2 - a2))) +
               (s - t) * (s - t) *
               ((b1 - a1) * (b1 - a1) + (b2 - a2) * (b2 - a2)) -
               2 * (s - t) *
               ((p1 - (a1 + t * (b1 - a1))) * (b1 - a1) +
                (p2 - (a2 + t * (b2 - a2))) * (b2 - a2))) by ring.
  rewrite Hperp in Hd. rewrite Hd.
  assert (Hsq : 0 <= (s - t) * (s - t)) by apply Rle_0_sqr.
  assert (HLge : 0 <= (b1 - a1) * (b1 - a1) + (b2 - a2) * (b2 - a2))
    by (apply Rplus_le_le_0_compat; apply Rle_0_sqr).
  pose proof (Rmult_le_pos _ _ Hsq HLge) as Hprod.
  lra.
Qed.

(** The distance to the foot is the distance to the line. *)
Lemma foot_distance (P A B : RPoint) :
  A <> B ->
  pointDistance P (along A B (projection P A B)) = lineDistance P A B.
Proof.
  intros Hne. pose proof (lenSq_nonzero Hne) as HL.
  destruct P as [p1 p2], A as [a1 a2], B as [b1 b2].
  unfold lineDistance, pointDistance, along, projection, px, py in *.
  simpl in *.
  set (L := (b1 - a1) * (b1 - a1) + (b2 - a2) * (b2 - a2)) in *.
  assert (HLge : 0 <= L)
    by (apply Rplus_le_le_0_compat; apply Rle_0_sqr).
  assert (HLpos : 0 < L)
    by (destruct HLge as [H|H]; [exact H | now symmetry in H]).
  rewrite <- sqrt_Rsqr_abs, <- sqrt_div_alt by exact HLpos.
  apply f_equal. unfold Rsqr, L in *. field. exact HL.
Qed.

(** C4: over the reals, [distanceToSegment P A B] is the perpendicular
    distance from P to the line through A and B when the projection
    parameter of P lies in [0, 1] (the distance to the foot of the
    perpendicular, below which no point of the line comes); the distance
    from P to A when the parameter is below 0; the distance from P to B
    when it is above 1; and the distance from P to A when A = B.  In
    binary64, for every P, A and B, the result is the rounded
    [sqrt (dx * dx + dy * dy)] for the offset from P to A when the squared
    length is zero or the parameter computed is below 0, to B when it is
    above 1, and to the foot computed, [A + t (B - A)], otherwise; the four
    cases compute 1, 5, 5 and 5 at sample points. *)
Theorem distanceToSegment_clamped_distance :
  (forall P A B : RPoint,
      let t := projection P A B in
      let d := distanceToSegment P A B in
      (A <> B -> 0 <= t <= 1 ->
       d = lineDistance P A B /\
       d = pointDistance P (along A B t) /\
       perpendicular P (along A B t) A B /\
       forall s, d <= pointDistance P (along A B s)) /\
      (A <> B -> t < 0 -> d = pointDistance P A) /\
      (A <> B -> 1 < t -> d = pointDistance P B) /\
      (A = B -> d = pointDistance P A)) /\
  (forall P A B : @Point JsFloat.number,
      let C := (x B - x A)%float in
      let D := (y B - y A)%float in
      let lenSq := (C * C + D * D)%float in
      let t := (((x P - x A) * C + (y P - y A) * D) / lenSq)%float in
      let to := fun Q : @Point JsFloat.number =>
        PrimFloat.sqrt
          ((x P - x Q) * (x P - x Q) + (y P - y Q) * (y P - y Q))%float in
      let d := distanceToSegment P A B in
      (PrimFloat.eqb lenSq 0 = true -> d = to A) /\
      (PrimFloat.eqb lenSq 0 = false -> PrimFloat.ltb t 0 = true ->
       d = to A) /\
      (PrimFloat.eqb lenSq 0 = false -> PrimFloat.ltb t 0 = false ->
       PrimFloat.ltb 1 t = true -> d = to B) /\
      (PrimFloat.eqb lenSq 0 = false -> PrimFloat.ltb t 0 = false ->
       PrimFloat.ltb 1 t = false ->
       d = to (@mkPoint JsFloat.number (x A + t * C)%float
                 (y A + t * D)%float))) /\
  (distanceToSegment (Sample.pt 5 1) (Sample.pt 0 0) (Sample.pt 10 0)
     = 1%float /\
   distanceToSegment (Sample.pt (-3) 4) (Sample.pt 0 0) (Sample.pt 10 0)
     = 5%float /\
   distanceToSegment (Sample.pt 13 4) (Sample.pt 0 0) (Sample.pt 10 0)
     = 5%float /\
   distanceToSegment (Sample.pt 3 4) (Sample.pt 0 0) (Sample.pt 0 0)
     = 5%float).
Proof.
  split; [|split; [|repeat split; reflexivity]].
  2: { intros P A B C D lenSq t to d.
       pose proof (distanceToSegment_binary64_cases P A B) as Hd.
       cbv zeta in Hd. fold C D in Hd. fold lenSq in Hd. fold t in Hd.
       fold to in Hd. fold d in Hd. rewrite Hd.
       repeat split; intros;
         repeat match goal with H : _ = _ :> bool |- _ => rewrite H end;
         reflexivity. }
  intros P A B t d.
  assert (Hd : d = if Rlt_dec (segmentParam P A B) 0 then pointDistance P A
                   else if Rlt_dec 1 (segmentParam P A B)
                        then pointDistance P B
                        else pointDistance P (along A B (segmentParam P A B)))
    by apply distanceToSegment_cases.
  split; [|split; [|split]].
  - intros Hne Ht. rewrite (segmentParam_distinct P Hne) in Hd. fold t in Hd.
    destruct (Rlt_dec t 0) as [H|_]; [lra|].
    destruct (Rlt_dec 1 t) as [H|_]; [lra|].
    split; [rewrite Hd; now apply foot_distance|].
    split; [exact Hd|].
    split; [now apply foot_perpendicular|].
    intros s. rewrite Hd. now apply foot_is_nearest.
  - intros Hne Ht. rewrite (segmentParam_distinct P Hne) in Hd. fold t in Hd.
    destruct (Rlt_dec t 0) as [_|H]; [exact Hd | lra].
  - intros Hne Ht. rewrite (segmentParam_distinct P Hne) in Hd. fold t in Hd.
    destruct (Rlt_dec t 0) as [H|_]; [lra|].
    destruct (Rlt_dec 1 t) as [_|H]; [exact Hd | lra].
  - intros E. subst B. rewrite segmentParam_degenerate in Hd.
    destruct (Rlt_dec (-1) 0) as [_|H]; [exact Hd | lra].
Qed.

(** C5: in every reading of the arithmetic, binary64 included, and
    whatever the canvas, the asset and the moment of loading, the import
    appends to the scene one image element whose size and position are the
    display box computed from the canvas size (the window's when there is
    no canvas) and the asset's size.  Over the reals, that box keeps the
    asset's aspect ratio, is at most 80% of the canvas wide and 80% of it
    high, is the asset's own size when that fits and touches one of the two
    caps when it does not, and is centred in the canvas.  In binary64 as
    over the reals, a 2000 by 1000 asset on a 1000 by 800 canvas gets the box
    800 by 400 at (100, 200), and that is the image element the import
    appends. *)
Theorem image_import_display_box :
  (forall (N : Number) (chosen st : @State N) (canvas : option (num * num))
          (inner img : num * num) (src now : string),
      let canvasWidth := orElse (option_map fst canvas) (fst inner) in
      let canvasHeight := orElse (option_map snd canvas) (snd inner) in
      let '(w', h', pos) :=
        displayBox canvasWidth canvasHeight (fst img) (snd img) in
      elements (imageOnLoad chosen canvas inner img src now st) =
      elements st ++
      [ImageElement (mkBase now "#ffffff" (ofZ 0) (ofZ 1)) pos src w' h'
         (ofZ 0)]) /\
  (forall cw ch w h : R,
      0 < cw -> 0 < ch -> 0 < w -> 0 < h ->
      let '(w', h', pos) := @displayBox Ideal.number cw ch w h in
      0 < w' /\ 0 < h' /\
      w' * h = h' * w /\
      w' <= cw * (8 / 10) /\ h' <= ch * (8 / 10) /\
      (w <= cw * (8 / 10) -> h <= ch * (8 / 10) -> w' = w /\ h' = h) /\
      (cw * (8 / 10) < w \/ ch * (8 / 10) < h ->
       w' = cw * (8 / 10) \/ h' = ch * (8 / 10)) /\
      px pos + w' / 2 = cw / 2 /\ py pos + h' / 2 = ch / 2) /\
  @displayBox Ideal.number 1000 800 2000 1000 =
    (800, 400, @mkPoint Ideal.number 100 200) /\
  @displayBox JsFloat.number 1000%float 800%float 2000%float 1000%float =
    (800%float, 400%float, Sample.pt 100 200) /\
  (forall (chosen st : @State JsFloat.number) (inner : float * float)
          (src now : string),
      elements
        (@imageOnLoad JsFloat.number chosen (Some (1000%float, 800%float))
           inner (2000%float, 1000%float) src now st) =
      elements st ++
      [ImageElement (@mkBase JsFloat.number now "#ffffff" 0%float 1%float)
         (Sample.pt 100 200) src 800%float 400%float 0%float]).
Proof.
  split; [|split; [|split; [|split]]].
  - intros N chosen st canvas inner img src now. cbv zeta.
    unfold imageOnLoad, newImage.
    destruct (displayBox _ _ _ _) as [[w' h'] pos]. reflexivity.
  - intros cw ch w h Hcw Hch Hw Hh. ideal_ops.
    destruct (Rlt_dec (cw * (8 / 10)) w) as [H1|H1].
    + set (r := cw * (8 / 10) / w).
      assert (Hr : r * w = cw * (8 / 10)) by (unfold r; field; lra).
      assert (Hr0 : 0 < r) by (unfold r; apply Rdiv_lt_0_compat; lra).
      assert (Hr1 : r < 1) by nra.
      assert (Hhr : 0 < h * r) by (apply Rmult_lt_0_compat; lra).
      destruct (Rlt_dec (ch * (8 / 10)) (h * r)) as [H2|H2].
      * set (q := ch * (8 / 10) / (h * r)).
        assert (Hq : q * (h * r) = ch * (8 / 10)) by (unfold q; field; lra).
        assert (Hq0 : 0 < q) by (unfold q; apply Rdiv_lt_0_compat; lra).
        assert (Hq1 : q < 1) by nra.
        repeat split; try lra; try nra.
      * repeat split; try lra; try nra.
    + destruct (Rlt_dec (ch * (8 / 10)) h) as [H2|H2].
      * set (q := ch * (8 / 10) / h).
        assert (Hq : q * h = ch * (8 / 10)) by (unfold q; field; lra).
        assert (Hq0 : 0 < q) by (unfold q; apply Rdiv_lt_0_compat; lra).
        assert (Hq1 : q < 1) by nra.
        repeat split; try lra; try nra.
      * repeat split; try lra; try nra.
  - ideal_ops.
    destruct (Rlt_dec (1000 * (8 / 10)) 2000) as [_|H]; [|lra].
    destruct (Rlt_dec (800 * (8 / 10)) (1000 * (1000 * (8 / 10) / 2000)))
      as [H|_]; [lra|].
    f_equal; [f_equal|f_equal]; lra.
  - reflexivity.
  - intros chosen st inner src now. reflexivity.
Qed.

End IdealGeometry.

(** ** The claims at concrete scenes *)

(** The undo scenario of the design notes: after the commits [A], [A, B],
    [A] the history has three entries and the cursor is 2; two undos show
    [A, B] then [A]; a third changes nothing. *)
Example undo_scenario :
  length (history Sample.threeCommits) = 3%nat /\
  historyIndex Sample.threeCommits = 2%Z /\
  exists s1 s2,
    handleUndo Sample.threeCommits = Some s1 /\
    elements s1 = [Sample.rectA; Sample.noteB] /\ historyIndex s1 = 1%Z /\
    handleUndo s1 = Some s2 /\
    elements s2 = [Sample.rectA] /\ historyIndex s2 = 0%Z /\
    handleUndo s2 = Some s2 /\ s2 = Sample.twoUndone.
Proof.
  split; [reflexivity|]. split; [reflexivity|].
  exists (moveCursor 1 [Sample.rectA; Sample.noteB] Sample.threeCommits).
  exists Sample.twoUndone.
  repeat split; reflexivity.
Qed.



Lemma hitTest_topmost_wins_witness :
  hitsElement (Sample.pt 50 25) Sample.rectA = true /\
  hitsElement (Sample.pt 50 25) Sample.noteB = true /\
  getElementAtPosition [Sample.rectA; Sample.noteB] (Sample.pt 50 25) =
    Some Sample.noteB.
Proof.
  split; [reflexivity|]. split; [reflexivity|].
  exact (proj1 (@hitTest_topmost_wins JsFloat.number Sample.rectA
                  Sample.noteB (Sample.pt 50 25) eq_refl eq_refl)).
Defined.

Lemma sample_ids_differ (el : Element) :
  In el [Sample.rectA; Sample.noteB] -> id_of el <> "1600000000000".
Proof.
  simpl. intros [<-|[<-|[]]]; discriminate.
Defined.

Lemma not_found_is_silent_noop_witness :
  removeById "1600000000000" [Sample.rectA; Sample.noteB] =
    [Sample.rectA; Sample.noteB] /\
  elements (handleTextChange "1600000000000" "hello"
              (setElements [Sample.rectA; Sample.noteB]
                 (@initialState JsFloat.number))) =
    [Sample.rectA; Sample.noteB].
Proof.
  pose proof (@not_found_is_silent_noop JsFloat.number
                (setElements [Sample.rectA; Sample.noteB] initialState)
                "1600000000000" sample_ids_differ)
    as (_ & H2 & H3 & _).
  split; [exact H2 | exact (H3 "hello")].
Defined.

Lemma threeCommits_cursorInRange : cursorInRange Sample.threeCommits.
Proof. unfold cursorInRange. simpl. lia. Defined.

Lemma delete_always_commits_witness :
  cursorInRange Sample.threeCommits /\
  length (history (handleElementDelete "1600000000000" Sample.threeCommits)) =
    4%nat /\
  elements (handleElementDelete "1600000000000" Sample.threeCommits) =
    elements Sample.threeCommits.
Proof.
  split; [exact threeCommits_cursorInRange|].
  pose proof (@delete_always_commits JsFloat.number Sample.threeCommits
                "1600000000000" threeCommits_cursorInRange)
    as (_ & _ & _ & H4 & H5).
  split.
  - exact (proj2 (H4 eq_refl)).
  - refine (proj1 (H5 _)). simpl. intros el [<-|[]]. discriminate.
Defined.

Lemma image_import_display_box_witness :
  let '(w', h', pos) :=
    @displayBox Ideal.number 1000%R 800%R 2000%R 1000%R in
  (w' * 1000 = h' * 2000)%R /\
  (w' <= 1000 * (8 / 10))%R /\ (h' <= 800 * (8 / 10))%R.
Proof.
  pose proof (proj1 (proj2 image_import_display_box)
                1000%R 800%R 2000%R 1000%R
                ltac:(lra) ltac:(lra) ltac:(lra) ltac:(lra)) as H.
  destruct (@displayBox Ideal.number 1000%R 800%R 2000%R 1000%R)
    as [[w' h'] pos].
  destruct H as (_ & _ & H3 & H4 & H5 & _).
  split; [exact H3|]. split; [exact H4 | exact H5].
Defined.

(** A run stays a run under a weaker condition on its events. *)
Lemma rendered_weaken {N : Number} (ok ok' : Event -> State -> Prop)
  (rs : list State) :
  (forall ev st, ok ev st -> ok' ev st) -> rendered ok rs -> rendered ok' rs.
Proof.
  intros Hw. induction 1 as [|ev st st' past _ IH Hc Hok H].
  - constructor.
  - econstructor; [exact IH | exact Hc | now apply Hw | exact H].
Qed.

(** The run with the late image: the text tool, two clicks, the load. *)
Lemma lateRenders_fresh : rendered bringsFreshIds Sample.lateRenders.
Proof.
  unfold Sample.lateRenders.
  apply rendered_step with (ev := Sample.lateImage).
  apply rendered_step
    with (ev := ev_down (Sample.pt 300 10) "1700000000004").
  apply rendered_step with (ev := ev_down (Sample.pt 10 10) "1700000000003").
  apply rendered_step with (ev := ev_tool tool_text).
  apply rendered_init.
  all: try reflexivity; try exact I.
  - intros [].
  - simpl. intros [H|[]]. discriminate H.
  - simpl. tauto.
  - split; simpl; [intros [H|[H|[]]]; discriminate H | intros []].
Qed.

(** C6: the invariant [-1 <= cursor < entries.length] holds in the first
    render and is kept by every handler, the commits, undo and redo among
    them, with one exception: the commit made by [img.onload] when the
    cursor has moved on since the file was chosen.  That commit cuts the
    history at the old cursor and moves the cursor on from the new one, and
    always breaks the invariant.  So it holds in every render of a run
    without a late load, and fails in a run with one: a file chosen on the
    empty board, two text boxes made, the image loaded leave one history
    entry under cursor 2, where [canUndo] holds and an undo reads outside
    the history.  [canUndo] and [canRedo] are the two comparisons in every
    state. *)
Theorem late_image_load_breaks_history_invariant :
  (forall (N : Number) (rs : list (@State N)),
      rendered (fun ev st => lateLoad ev st = false) rs ->
      Forall cursorInRange rs) /\
  (forall (N : Number) (chosen st : @State N) (canvas : option (num * num))
          (inner img : num * num) (src now : string),
      (-1 <= historyIndex chosen < historyIndex st)%Z ->
      ~ cursorInRange (imageOnLoad chosen canvas inner img src now st)) /\
  (forall (N : Number) (st : @State N),
      (canUndo st = true <-> (historyIndex st > 0)%Z) /\
      (canRedo st = true <->
         (historyIndex st < Z.of_nat (length (history st)) - 1)%Z)) /\
  reachable Sample.lateLoaded /\
  cursorInRange Sample.twoBoxes /\
  length (elements Sample.lateLoaded) = 3%nat /\
  length (history Sample.lateLoaded) = 1%nat /\
  historyIndex Sample.lateLoaded = 2%Z /\
  ~ cursorInRange Sample.lateLoaded /\
  canUndo Sample.lateLoaded = true /\
  handleUndo Sample.lateLoaded = None.
Proof.
  split; [intros N rs; apply rendered_cursorInRange|].
  split; [intros N chosen st canvas inner img src now;
          apply imageOnLoad_late|].
  split.
  { intros N st. unfold canUndo, canRedo.
    rewrite Z.gtb_ltb, !Z.ltb_lt. split; split; lia. }
  split.
  { exists (tl Sample.lateRenders).
    change (rendered (fun _ _ => True) Sample.lateRenders).
    apply (@rendered_weaken JsFloat.number bringsFreshIds);
      [trivial | exact lateRenders_fresh]. }
  split; [unfold cursorInRange; simpl; lia|].
  split; [reflexivity|]. split; [reflexivity|]. split; [reflexivity|].
  split; [unfold cursorInRange; simpl; lia|].
  split; reflexivity.
Qed.

(** The counterexample to C4 as stated: in binary64 the equality is with
    the rounded formula only.  For
    P = (10, 29), A = (0, 33), B = (20, 54) the projection parameter is
    4/29, inside [0, 1], and the perpendicular distance is exactly 10, which
    the code returns over the reals; in binary64 it returns the number just
    below 10, and the number just above 10 with the endpoints swapped. *)
Lemma distanceToSegment_binary64_inexact :
  let P := @mkPoint Ideal.number 10%R 29%R in
  let A := @mkPoint Ideal.number 0%R 33%R in
  let B := @mkPoint Ideal.number 20%R 54%R in
  (Plane.projection P A B = 4 / 29)%R /\
  Plane.lineDistance P A B = 10%R /\
  distanceToSegment P A B = 10%R /\
  Exact.value 10%float = Some (5629499534213120, -49)%Z /\
  Exact.value
    (distanceToSegment (Sample.pt 10 29) (Sample.pt 0 33) (Sample.pt 20 54))
    = Some (5629499534213119, -49)%Z /\
  Exact.value
    (distanceToSegment (Sample.pt 10 29) (Sample.pt 20 54) (Sample.pt 0 33))
    = Some (5629499534213121, -49)%Z /\
  PrimFloat.eqb
    (distanceToSegment (Sample.pt 10 29) (Sample.pt 0 33) (Sample.pt 20 54))
    10%float = false.
Proof.
  intros P A B.
  assert (Hne : A <> B) by (intros H; injection H; intros; lra).
  assert (Hl : Plane.lineDistance P A B = 10%R).
  { unfold Plane.lineDistance, Plane.px, Plane.py, P, A, B. simpl.
    replace ((10 - 0) * (54 - 33) - (29 - 33) * (20 - 0))%R with 290%R
      by lra.
    replace ((20 - 0) * (20 - 0) + (54 - 33) * (54 - 33))%R
      with (29 * 29)%R by lra.
    rewrite sqrt_square by lra. rewrite Rabs_pos_eq by lra. lra. }
  assert (Ht : (Plane.projection P A B = 4 / 29)%R).
  { unfold Plane.projection, Plane.px, Plane.py, P, A, B. simpl. lra. }
  split; [exact Ht|]. split; [exact Hl|]. split.
  - rewrite distanceToSegment_cases, (segmentParam_distinct P Hne), Ht.
    destruct (Rlt_dec (4 / 29) 0) as [H|_]; [lra|].
    destruct (Rlt_dec 1 (4 / 29)) as [H|_]; [lra|].
    rewrite <- Ht, <- Hl. now apply foot_distance.
  - repeat split; reflexivity.
Qed.

(** The counterexample to C5 as stated: in binary64 the ratio and the
    caps hold up to rounding only.  For
    a 4032 by 3024 asset on a 1366 by 768 canvas the box is
    7205759403792796 * 2^-43 wide and 5404319552844596 * 2^-43 high: the
    width times 3024 is above the height times 4032, and the height is
    above 80% of 768 (ten times the height is above eight times 768). *)
Lemma displayBox_binary64_inexact :
  let '(w', h', _) :=
    @displayBox JsFloat.number 1366%float 768%float 4032%float 3024%float in
  Exact.value w' = Some (7205759403792796, -43)%Z /\
  Exact.value h' = Some (5404319552844596, -43)%Z /\
  Exact.cross w' 3024 h' 4032 = Some Gt /\
  Exact.cross h' 10 768%float 8 = Some Gt /\
  PrimFloat.eqb (w' * 3024) (h' * 4032) = false.
Proof. repeat split; reflexivity. Qed.

Lemma distanceToSegment_clamped_distance_witness :
  let P := @mkPoint Ideal.number 5%R 1%R in
  let A := @mkPoint Ideal.number 0%R 0%R in
  let B := @mkPoint Ideal.number 10%R 0%R in
  distanceToSegment P A B = Plane.lineDistance P A B /\
  distanceToSegment P B B = Plane.pointDistance P B.
Proof.
  intros P A B.
  pose proof (proj1 distanceToSegment_clamped_distance P A B)
    as (H1 & _ & _ & _).
  pose proof (proj1 distanceToSegment_clamped_distance P B B)
    as (_ & _ & _ & H4).
  split.
  - refine (proj1 (H1 _ _)).
    + intros E. apply (f_equal x) in E. simpl in E. lra.
    + unfold Plane.projection, Plane.px, Plane.py. simpl. lra.
  - exact (H4 eq_refl).
Defined.

(** * Further properties of the handlers *)

Unset Implicit Arguments.

(** ** Gestures *)

Section Gestures.

Context {N : Number}.

Lemma state_eta (st : State) : setElements (elements st) st = st.
Proof. destruct st; reflexivity. Qed.

Lemma lookup_last {A : Type} (pre : list A) (a : A) :
  lookup (pre ++ [a]) (Z.of_nat (length (pre ++ [a])) - 1) = Some a.
Proof.
  rewrite length_app. simpl.
  replace (Z.of_nat (length pre + 1) - 1)%Z with (Z.of_nat (length pre))
    by lia.
  apply lookup_snoc.
Qed.

Lemma slice0_last {A : Type} (pre : list A) (a : A) :
  slice0 (pre ++ [a]) (Z.of_nat (length (pre ++ [a])) - 1) = pre.
Proof.
  rewrite length_app. simpl.
  replace (Z.of_nat (length pre + 1) - 1)%Z with (Z.of_nat (length pre))
    by lia.
  apply slice0_app.
Qed.

Lemma lookup_last_None {A : Type} (arr : list A) :
  lookup arr (Z.of_nat (length arr) - 1) = None <-> arr = [].
Proof.
  split.
  - intros H. destruct arr as [|a arr] using rev_ind; [reflexivity|].
    rewrite lookup_last in H. discriminate.
  - intros ->. reflexivity.
Qed.

Lemma run_app (evs1 evs2 : list Event) (st : State) :
  run (evs1 ++ evs2) st =
  match run evs1 st with Some st' => run evs2 st' | None => None end.
Proof.
  revert st. induction evs1 as [|ev evs1 IH]; intros st; simpl.
  - reflexivity.
  - destruct (handle ev st); [apply IH | reflexivity].
Qed.

(** A move of the pen extends the path in progress by the new point. *)
Lemma draw_pen_step (p : Point) (st : State) (pre : list Element)
  (b : BaseElement) (pts : list Point) :
  activeTool st = tool_pen -> action st = act_drawing ->
  elements st = pre ++ [PathElement b pts] ->
  draw p st = Some (setElements (pre ++ [PathElement b (pts ++ [p])]) st).
Proof.
  intros Ht Ha He. unfold draw. rewrite Ha, Ht, He.
  rewrite lookup_last, slice0_last. reflexivity.
Qed.

Lemma draw_shape_step (p : Point) (st : State) (pre : list Element)
  (b : BaseElement) (s t : ShapeType) (p0 q : Point) :
  activeTool st = tool_shape s -> action st = act_drawing ->
  elements st = pre ++ [ShapeElement b t p0 q] ->
  draw p st = Some (setElements (pre ++ [ShapeElement b t p0 p]) st).
Proof.
  intros Ht Ha He. unfold draw. rewrite Ha, Ht, He.
  rewrite lookup_last, slice0_last. reflexivity.
Qed.

Lemma moves_pen (ps : list Point) : forall (st : State) (pre : list Element)
  (b : BaseElement) (pts : list Point),
  activeTool st = tool_pen -> action st = act_drawing ->
  elements st = pre ++ [PathElement b pts] ->
  run (map ev_move ps) st =
  Some (setElements (pre ++ [PathElement b (pts ++ ps)]) st).
Proof.
  induction ps as [|p ps IH]; intros st pre b pts Ht Ha He.
  - simpl. rewrite app_nil_r, <- He, state_eta. reflexivity.
  - simpl. rewrite (draw_pen_step p st pre b pts Ht Ha He).
    rewrite (IH _ pre b (pts ++ [p])); try assumption; try reflexivity.
    rewrite <- app_assoc. reflexivity.
Qed.

Lemma moves_shape (ps : list Point) : forall (st : State)
  (pre : list Element) (b : BaseElement) (s t : ShapeType) (p0 q : Point),
  activeTool st = tool_shape s -> action st = act_drawing ->
  elements st = pre ++ [ShapeElement b t p0 q] ->
  run (map ev_move ps) st =
  Some (setElements (pre ++ [ShapeElement b t p0 (last ps q)]) st).
Proof.
  induction ps as [|p ps IH]; intros st pre b s t p0 q Ht Ha He.
  - simpl. rewrite <- He, state_eta. reflexivity.
  - simpl map. simpl run. rewrite (draw_shape_step p st pre b s t p0 q Ht Ha He).
    rewrite (IH _ pre b s t p0 p); try assumption; try reflexivity.
    destruct ps as [|p' ps]; [reflexivity|].
    change (last (p :: p' :: ps) q) with (last (p' :: ps) q).
    rewrite (@last_default _ (p' :: ps) p q) by discriminate. reflexivity.
Qed.

(** X1: a pen gesture (down, any number of moves, up) never fails and
    appends exactly one path, made of the down point and every move point in
    order, with the colour, width and opacity picked; it records exactly one
    history entry, the scene with the whole stroke, and ends with no action
    and no selection. *)
Theorem pen_gesture_appends_one_stroke (st : State) (p0 : Point)
  (now : string) (ps : list Point) :
  activeTool st = tool_pen ->
  let scene := elements st ++ [PathElement (pickedBase now st) (p0 :: ps)] in
  run (gesture p0 now ps) st =
  Some (setSelectedElement None (setAction act_none (commitScene scene st))).
Proof.
  intros Ht scene. unfold gesture.
  change (ev_down p0 now :: map ev_move ps ++ [ev_up])
    with ([ev_down p0 now] ++ map ev_move ps ++ [ev_up]).
  rewrite run_app. simpl run at 1.
  unfold startDrawing. rewrite Ht.
  rewrite run_app.
  rewrite (moves_pen ps _ (elements st) (pickedBase now st) [p0])
    by first [exact Ht | reflexivity].
  reflexivity.
Qed.

(** X2: a gesture with the rectangle, circle or arrow tool never fails
    and appends exactly one shape of the tool's kind, from the down point to
    the last move point (to the down point itself when the pointer never
    moved); it records exactly one history entry and ends with no action. *)
Theorem shape_gesture_appends_one_shape (st : State) (s : ShapeType)
  (p0 : Point) (now : string) (ps : list Point) :
  activeTool st = tool_shape s ->
  let scene :=
    elements st ++ [ShapeElement (pickedBase now st) s p0 (last ps p0)] in
  run (gesture p0 now ps) st =
  Some (setSelectedElement None (setAction act_none (commitScene scene st))).
Proof.
  intros Ht scene. unfold gesture.
  change (ev_down p0 now :: map ev_move ps ++ [ev_up])
    with ([ev_down p0 now] ++ map ev_move ps ++ [ev_up]).
  rewrite run_app. simpl run at 1.
  unfold startDrawing. rewrite Ht.
  rewrite run_app.
  rewrite (moves_shape ps _ (elements st) (pickedBase now st) s s p0 p0)
    by first [exact Ht | reflexivity].
  reflexivity.
Qed.

(** X3: a pointer move throws exactly when the component is drawing with
    the pen or a shape tool and the scene is empty (the element in progress
    is read from the last slot of the scene); in every other state it
    returns normally. *)
Theorem draw_throws_iff (p : Point) (st : State) :
  draw p st = None <->
  action st = act_drawing /\
  (activeTool st = tool_pen \/ exists s, activeTool st = tool_shape s) /\
  elements st = [].
Proof.
  unfold draw. split.
  - intros H. destruct (action st) eqn:Ha; try discriminate.
    + destruct (activeTool st) eqn:Ht; try discriminate.
      * destruct (lookup (elements st) _) as [[]|] eqn:E; try discriminate.
        apply lookup_last_None in E. split; [reflexivity|].
        split; [now left | exact E].
      * destruct (lookup (elements st) _) as [[]|] eqn:E; try discriminate.
        apply lookup_last_None in E. split; [reflexivity|].
        split; [right; now exists s | exact E].
    + destruct (getElementAtPosition (elements st) p); discriminate.
  - intros (Ha & Ht & He). rewrite Ha, He. simpl.
    destruct Ht as [-> | [s ->]]; reflexivity.
Qed.

Lemma moves_erasing (ps : list Point) : forall st : State,
  action st = act_erasing ->
  run (map ev_move ps) st =
  Some (setElements (fold_left (fun els p => eraseAt p els) ps (elements st))
          st).
Proof.
  induction ps as [|p ps IH]; intros st Ha.
  - simpl. rewrite state_eta. reflexivity.
  - simpl map. simpl run. unfold draw. rewrite Ha.
    simpl fold_left. unfold eraseAt at 2.
    destruct (getElementAtPosition (elements st) p) as [e|].
    + rewrite IH by exact Ha. reflexivity.
    + rewrite IH by exact Ha. reflexivity.
Qed.

(** X4: an eraser gesture never fails.  Every point of it, the down point
    and each move point in turn, removes the topmost element it touches
    (with every element sharing that id); yet the history gets at most one
    entry, the scene after the down point when that point touched an
    element, and none at all when only the moves erased. *)
Theorem eraser_gesture_commits_at_most_once (st : State) (p0 : Point)
  (now : string) (ps : list Point) :
  activeTool st = tool_eraser ->
  exists st',
    run (gesture p0 now ps) st = Some st' /\
    elements st' =
      fold_left (fun els p => eraseAt p els) (p0 :: ps) (elements st) /\
    action st' = act_none /\ selectedElement st' = None /\
    match getElementAtPosition (elements st) p0 with
    | Some _ =>
        history st' =
          slice0 (history st) (historyIndex st + 1) ++
          [eraseAt p0 (elements st)] /\
        historyIndex st' = (historyIndex st + 1)%Z
    | None =>
        history st' = history st /\ historyIndex st' = historyIndex st
    end.
Proof.
  intros Ht. unfold gesture.
  change (ev_down p0 now :: map ev_move ps ++ [ev_up])
    with ([ev_down p0 now] ++ map ev_move ps ++ [ev_up]).
  rewrite run_app. simpl run at 1.
  unfold startDrawing. rewrite Ht. rewrite run_app.
  simpl fold_left. unfold eraseAt at 2 3.
  destruct (getElementAtPosition (elements st) p0) as [e|].
  - rewrite moves_erasing by reflexivity.
    eexists. split; [reflexivity|]. simpl. repeat split.
  - rewrite moves_erasing by reflexivity.
    eexists. split; [reflexivity|]. simpl. repeat split.
Qed.

(** X5: the select tool moves nothing.  From a state with no action in
    progress, a whole gesture with it (down, moves, up) leaves the scene, the
    history and the cursor exactly as they were, whether or not the down
    point touched an element. *)
Theorem select_gesture_changes_nothing (st : State) (p0 : Point)
  (now : string) (ps : list Point) :
  activeTool st = tool_select -> action st = act_none ->
  run (gesture p0 now ps) st = Some (setSelectedElement None st).
Proof.
  intros Ht Ha. unfold gesture.
  change (ev_down p0 now :: map ev_move ps ++ [ev_up])
    with ([ev_down p0 now] ++ map ev_move ps ++ [ev_up]).
  rewrite run_app. simpl run at 1.
  unfold startDrawing. rewrite Ht. rewrite run_app.
  assert (Hidle : forall s : State,
             action s = act_none \/ action s = act_moving ->
             run (map ev_move ps) s = Some s).
  { induction ps as [|p ps IH]; intros s Hs; [reflexivity|].
    simpl. unfold draw.
    destruct Hs as [Hs|Hs]; rewrite Hs; apply IH; rewrite Hs; tauto. }
  assert (Hup : forall s : State,
             action s = act_none \/ action s = act_moving ->
             finishDrawing s = setSelectedElement None (setAction act_none s)).
  { intros s [Hs|Hs]; unfold finishDrawing; rewrite Hs; reflexivity. }
  destruct (getElementAtPosition (elements st) p0) as [[]|];
    rewrite Hidle by (simpl; tauto); simpl run; rewrite Hup by (simpl; tauto);
    destruct st; simpl in *; subst; reflexivity.
Qed.

End Gestures.

(** ** Hit-testing *)

Section HitTestMore.

Context {N : Number}.

(** X6: the hit-test answers an element exactly when that element stands
    in the scene, accepts the point, and no element after it does (it is the
    topmost accepting one); it answers null exactly when no element of the
    scene accepts the point. *)
Theorem hitTest_is_topmost_accepting (els : list Element) (p : Point) :
  (forall el,
      getElementAtPosition els p = Some el <->
      exists pre post,
        els = pre ++ el :: post /\ hitsElement p el = true /\
        forall e, In e post -> hitsElement p e = false) /\
  (getElementAtPosition els p = None <->
   forall e, In e els -> hitsElement p e = false).
Proof.
  split; [|apply getElementAtPosition_None].
  intros el. split.
  - revert el. induction els as [|a els IH] using rev_ind; intros el H.
    + discriminate.
    + rewrite getElementAtPosition_snoc in H.
      destruct (hitsElement p a) eqn:Ha.
      * injection H as <-. exists els, []. repeat split; [exact Ha|].
        intros e [].
      * destruct (IH el H) as (pre & post & -> & Hel & Hpost).
        exists pre, (post ++ [a]). rewrite <- app_assoc. simpl.
        repeat split; [exact Hel|].
        intros e Hin. apply in_app_or in Hin.
        destruct Hin as [Hin|[<-|[]]]; [now apply Hpost | exact Ha].
  - intros (pre & post & -> & Hel & Hpost).
    now apply getElementAtPosition_last_hit.
Qed.

End HitTestMore.

(** ** Ids *)

Section IdFacts.

Context {N : Number}.

Lemma withText_id (t : string) (el : Element) :
  id_of (withText t el) = id_of el.
Proof. destruct el; reflexivity. Qed.

Lemma withPosition_id (p : Point) (el : Element) :
  id_of (withPosition p el) = id_of el.
Proof. destruct el; reflexivity. Qed.

Lemma withTextSize_id (w h : num) (el : Element) :
  id_of (withTextSize w h el) = id_of el.
Proof. destruct el; reflexivity. Qed.

Lemma withColor_id (c : string) (el : Element) :
  id_of (withColor c el) = id_of el.
Proof. destruct el; reflexivity. Qed.

Lemma withImageSize_id (w h : num) (el : Element) :
  id_of (withImageSize w h el) = id_of el.
Proof. destruct el; reflexivity. Qed.

Lemma withRotation_id (r : num) (el : Element) :
  id_of (withRotation r el) = id_of el.
Proof. destruct el; reflexivity. Qed.

Lemma ids_updateById (patch : Element -> Element) (i : string)
  (els : list Element) :
  (forall el, id_of (patch el) = id_of el) ->
  ids (updateById patch i els) = ids els.
Proof.
  intros Hp. unfold ids, updateById. rewrite map_map.
  apply map_ext. intros el.
  destruct (String.eqb (id_of el) i); [apply Hp | reflexivity].
Qed.

Lemma ids_removeById (i : string) (els : list Element) :
  ids (removeById i els) =
  filter (fun j => negb (String.eqb j i)) (ids els).
Proof.
  unfold ids, removeById. induction els as [|el els IH]; [reflexivity|].
  simpl. destruct (String.eqb (id_of el) i); simpl; now rewrite IH.
Qed.

Lemma NoDup_filter {A : Type} (f : A -> bool) (l : list A) :
  NoDup l -> NoDup (filter f l).
Proof.
  induction 1 as [|a l Hnin Hnd IH]; simpl; [constructor|].
  destruct (f a); [|exact IH].
  constructor; [|exact IH].
  intros Hin. apply filter_In in Hin. now destruct Hin.
Qed.

Lemma uniqueIds_removeById (i : string) (els : list Element) :
  uniqueIds els -> uniqueIds (removeById i els).
Proof.
  unfold uniqueIds. rewrite ids_removeById. apply NoDup_filter.
Qed.

Lemma uniqueIds_updateById (patch : Element -> Element) (i : string)
  (els : list Element) :
  (forall el, id_of (patch el) = id_of el) ->
  uniqueIds els -> uniqueIds (updateById patch i els).
Proof.
  intros Hp. unfold uniqueIds. now rewrite ids_updateById.
Qed.

Lemma uniqueIds_snoc (els : list Element) (el : Element) :
  uniqueIds els -> ~ In (id_of el) (ids els) -> uniqueIds (els ++ [el]).
Proof.
  unfold uniqueIds, ids. intros Hnd Hnin. rewrite map_app. simpl.
  apply NoDup_app.
  - exact Hnd.
  - constructor; [intros [] | constructor].
  - intros j Hj [<-|[]]. now apply Hnin.
Qed.

Lemma uniqueIds_retouch_last (pre : list Element) (el el' : Element) :
  id_of el' = id_of el ->
  uniqueIds (pre ++ [el]) -> uniqueIds (pre ++ [el']).
Proof.
  unfold uniqueIds, ids. intros Hid. rewrite !map_app. simpl.
  now rewrite Hid.
Qed.

Lemma In_slice0 {A : Type} (arr : list A) (e : Z) (a : A) :
  In a (slice0 arr e) -> In a arr.
Proof.
  unfold slice0. generalize (Z.to_nat
    (if (e <? 0)%Z then Z.max (Z.of_nat (length arr) + e) 0
     else Z.min e (Z.of_nat (length arr)))).
  intros n. revert arr. induction n as [|n IH]; intros [|b arr]; simpl;
    try tauto.
  intros [->|Hin]; [now left | right; now apply IH].
Qed.

Lemma lookup_In {A : Type} (arr : list A) (i : Z) (a : A) :
  lookup arr i = Some a -> In a arr.
Proof.
  unfold lookup. destruct (i <? 0)%Z; [discriminate|].
  apply nth_error_In.
Qed.

Lemma last_slot {A : Type} (arr : list A) (a : A) :
  lookup arr (Z.of_nat (length arr) - 1) = Some a ->
  arr = slice0 arr (Z.of_nat (length arr) - 1) ++ [a].
Proof.
  destruct arr as [|b arr] using rev_ind; [discriminate|].
  rewrite lookup_last, slice0_last. now intros [= ->].
Qed.

Lemma idsUnique_commitScene (scene : list Element) (st : State) :
  idsUnique st -> uniqueIds scene -> idsUnique (commitScene scene st).
Proof.
  intros [_ Hh] Hs. split; [exact Hs|]. simpl.
  apply Forall_app. split.
  - rewrite Forall_forall in *. intros sc Hin. apply Hh.
    now apply In_slice0 in Hin.
  - now constructor.
Qed.

Lemma idsUnique_setElements (scene : list Element) (st : State) :
  idsUnique st -> uniqueIds scene -> idsUnique (setElements scene st).
Proof. intros [_ Hh] Hs. now split. Qed.

Lemma idsUnique_startDrawing (p : Point) (now : string) (st : State) :
  idsUnique st -> bringsFreshIds (ev_down p now) st ->
  idsUnique (startDrawing p now st).
Proof.
  intros Hu Hf. pose proof Hu as [He Hh]. unfold startDrawing.
  simpl in Hf. destruct (activeTool st).
  - destruct (getElementAtPosition (elements st) p) as [[]|]; exact Hu.
  - apply idsUnique_setElements; [exact Hu | now apply uniqueIds_snoc].
  - apply idsUnique_setElements; [exact Hu | now apply uniqueIds_snoc].
  - apply idsUnique_commitScene; [exact Hu | now apply uniqueIds_snoc].
  - apply idsUnique_commitScene; [exact Hu | now apply uniqueIds_snoc].
  - exact Hu.
  - destruct (getElementAtPosition (elements st) p) as [e|]; [|exact Hu].
    apply idsUnique_commitScene; [exact Hu|].
    now apply uniqueIds_removeById.
Qed.

Lemma idsUnique_draw (p : Point) (st st' : State) :
  idsUnique st -> draw p st = Some st' -> idsUnique st'.
Proof.
  intros Hu H. pose proof Hu as [He Hh]. unfold draw in H.
  destruct (action st).
  - now injection H as <-.
  - destruct (activeTool st); try (now injection H as <-);
      destruct (lookup (elements st) _) as [el|] eqn:Hl; try discriminate;
      apply last_slot in Hl;
      destruct el; injection H as <-; try exact Hu;
      (apply idsUnique_setElements; [exact Hu|];
       rewrite Hl in He;
       eapply uniqueIds_retouch_last; [|exact He]; reflexivity).
  - now injection H as <-.
  - destruct (getElementAtPosition (elements st) p); injection H as <-;
      [|exact Hu].
    apply idsUnique_setElements; [exact Hu|].
    now apply uniqueIds_removeById.
Qed.

Lemma idsUnique_undo (st st' : State) :
  idsUnique st -> handleUndo st = Some st' -> idsUnique st'.
Proof.
  intros Hu H. pose proof Hu as [He Hh]. unfold handleUndo in H.
  destruct (historyIndex st >? 0)%Z; [|now injection H as <-].
  destruct (lookup (history st) _) as [sc|] eqn:Hl; [|discriminate].
  injection H as <-. split; [|exact Hh]. simpl.
  rewrite Forall_forall in Hh. apply Hh. now apply lookup_In in Hl.
Qed.

Lemma idsUnique_redo (st st' : State) :
  idsUnique st -> handleRedo st = Some st' -> idsUnique st'.
Proof.
  intros Hu H. pose proof Hu as [He Hh]. unfold handleRedo in H.
  destruct (historyIndex st <? _)%Z; [|now injection H as <-].
  destruct (lookup (history st) _) as [sc|] eqn:Hl; [|discriminate].
  injection H as <-. split; [|exact Hh]. simpl.
  rewrite Forall_forall in Hh. apply Hh. now apply lookup_In in Hl.
Qed.

Lemma newImage_id (canvas : option (num * num)) (inner img : num * num)
  (src now : string) : id_of (newImage canvas inner img src now) = now.
Proof.
  unfold newImage. destruct (displayBox _ _ _ _) as [[w h] pos]. reflexivity.
Qed.

(** One event: the render after it has unique ids when every render so far
    has, the one the handler was created in among them. *)
Lemma handle_idsUnique (ev : Event) (st st' : State) (past : list State) :
  Forall idsUnique (st :: past) -> closureOf ev (st :: past) ->
  bringsFreshIds ev st -> handle ev st = Some st' -> idsUnique st'.
Proof.
  intros Hall Hc Hf H.
  assert (Hu : idsUnique st) by now inversion Hall.
  pose proof Hu as [He Hh].
  destruct ev; simpl in H; try (injection H as <-); try exact Hu.
  - now apply idsUnique_startDrawing.
  - now apply (idsUnique_draw point st).
  - unfold finishDrawing. destruct (action st); try exact Hu.
    split; [exact He|]. simpl. apply Forall_app. split.
    + rewrite Forall_forall in *. intros sc Hin. apply Hh.
      now apply In_slice0 in Hin.
    + now constructor.
  - apply idsUnique_commitScene; [exact Hu|].
    apply uniqueIds_updateById; [apply withText_id | exact He].
  - apply idsUnique_commitScene; [exact Hu|].
    now apply uniqueIds_removeById.
  - apply idsUnique_setElements; [exact Hu|].
    apply uniqueIds_updateById; [apply withPosition_id | exact He].
  - apply idsUnique_commitScene; [exact Hu|].
    apply uniqueIds_updateById; [apply withTextSize_id | exact He].
  - apply idsUnique_commitScene; [exact Hu|].
    apply uniqueIds_updateById; [apply withColor_id | exact He].
  - apply idsUnique_commitScene; [exact Hu|].
    apply uniqueIds_updateById; [apply withImageSize_id | exact He].
  - apply idsUnique_commitScene; [exact Hu|].
    apply uniqueIds_updateById; [apply withRotation_id | exact He].
  - simpl in Hc, Hf. destruct Hf as [Hfs Hfc].
    assert (Hch : idsUnique chosen)
      by (rewrite Forall_forall in Hall; now apply Hall).
    unfold imageOnLoad. split; simpl.
    + apply uniqueIds_snoc; [exact He | now rewrite newImage_id].
    + apply Forall_app. split.
      * rewrite Forall_forall in *. intros sc Hin. apply Hh.
        now apply In_slice0 in Hin.
      * constructor; [|constructor].
        apply uniqueIds_snoc; [apply Hch | now rewrite newImage_id].
  - now apply (idsUnique_undo st).
  - now apply (idsUnique_redo st).
  - split; [constructor | constructor].
  - split; [exact Hf | constructor].
Qed.

(** X7: ids stay unique along every run of the component.  When every id
    given to a newly created element is new (for an image that loads, in
    the scene on display and in the scene of the render its file was chosen
    in) and every loaded project has distinct ids, then in every render the
    scene on display and every scene of the history have pairwise distinct
    ids, also after an image that loaded late. *)
Theorem handlers_keep_ids_unique (rs : list State) :
  rendered bringsFreshIds rs -> Forall idsUnique rs.
Proof.
  induction 1 as [|ev st st' past _ IH Hc Hf H].
  - repeat constructor.
  - constructor; [|exact IH].
    exact (handle_idsUnique ev st st' past IH Hc Hf H).
Qed.

End IdFacts.

(** ** Edits by id *)

Section EditFacts.

Context {N : Number}.

Lemma updateById_target (patch : Element -> Element) (i : string)
  (pre post : list Element) (el : Element) :
  id_of el = i -> ~ In i (ids pre) -> ~ In i (ids post) ->
  updateById patch i (pre ++ el :: post) = pre ++ patch el :: post.
Proof.
  intros Hid Hpre Hpost. unfold updateById. rewrite map_app. simpl.
  rewrite Hid, String.eqb_refl. f_equal; [|f_equal].
  - apply (@updateById_absent _ patch i pre).
    intros e Hin He. apply Hpre. unfold ids. rewrite <- He.
    now apply in_map.
  - apply (@updateById_absent _ patch i post).
    intros e Hin He. apply Hpost. unfold ids. rewrite <- He.
    now apply in_map.
Qed.

(** X8: the edits by id (text, position, text size, colour, image size,
    rotation) never add, drop or reorder elements: the sequence of ids of
    the scene, which is its paint and hit-test order, is the same after the
    edit, whether or not the id is present. *)
Theorem edits_keep_the_paint_order (st : State) (i : string) :
  (forall t, ids (elements (handleTextChange i t st)) = ids (elements st)) /\
  (forall p,
      ids (elements (handlePositionChange i p st)) = ids (elements st)) /\
  (forall w h,
      ids (elements (handleTextResize i w h st)) = ids (elements st)) /\
  (forall c,
      ids (elements (handleNoteColorChange i c st)) = ids (elements st)) /\
  (forall w h,
      ids (elements (handleImageResize i w h st)) = ids (elements st)) /\
  (forall r, ids (elements (handleImageRotate i r st)) = ids (elements st)).
Proof.
  repeat split; intros; simpl; apply ids_updateById; intros el.
  - apply withText_id.
  - apply withPosition_id.
  - apply withTextSize_id.
  - apply withColor_id.
  - apply withImageSize_id.
  - apply withRotation_id.
Qed.

(** X9: when exactly one element of the scene carries the id, an edit by
    that id replaces that element by its patched version and leaves every
    other element as it is: the text of a text box or note is replaced, its
    size set, the size and the rotation of an image set, the colour of a
    note set. *)
Theorem edit_touches_only_its_target (st : State) (i : string)
  (pre post : list Element) (el : Element) :
  elements st = pre ++ el :: post ->
  id_of el = i -> ~ In i (ids pre) -> ~ In i (ids post) ->
  (forall t,
      elements (handleTextChange i t st) = pre ++ withText t el :: post) /\
  (forall p,
      elements (handlePositionChange i p st) =
      pre ++ withPosition p el :: post) /\
  (forall w h,
      elements (handleTextResize i w h st) =
      pre ++ withTextSize w h el :: post) /\
  (forall c,
      elements (handleNoteColorChange i c st) =
      pre ++ withColor c el :: post) /\
  (forall w h,
      elements (handleImageResize i w h st) =
      pre ++ withImageSize w h el :: post) /\
  (forall r,
      elements (handleImageRotate i r st) =
      pre ++ withRotation r el :: post) /\
  (forall b p t0 w h f t,
      el = TextElement b p t0 w h f ->
      elements (handleTextChange i t st) =
      pre ++ TextElement b p t w h f :: post) /\
  (forall b p s w h r0 r,
      el = ImageElement b p s w h r0 ->
      elements (handleImageRotate i r st) =
      pre ++ ImageElement b p s w h r :: post).
Proof.
  intros He Hid Hpre Hpost.
  assert (Hu : forall patch,
             updateById patch i (elements st) = pre ++ patch el :: post).
  { intros patch. rewrite He. now apply updateById_target. }
  repeat split; intros; try subst el; simpl; apply Hu.
Qed.

(** X10: deleting by id removes every element that carries the id and no
    other, keeping the rest in order; with unique ids and the id present,
    exactly one element goes; deleting the same id again removes nothing
    more. *)
Theorem delete_removes_exactly_the_id (st : State) (i : string) :
  let els' := elements (handleElementDelete i st) in
  ids els' = filter (fun j => negb (String.eqb j i)) (ids (elements st)) /\
  (forall el, In el els' <-> In el (elements st) /\ id_of el <> i) /\
  (uniqueIds (elements st) -> In i (ids (elements st)) ->
   S (length els') = length (elements st)) /\
  elements (handleElementDelete i (handleElementDelete i st)) = els'.
Proof.
  intros els'. unfold els'. simpl.
  split; [apply ids_removeById|]. split; [|split].
  - intros el. unfold removeById. rewrite filter_In.
    destruct (String.eqb_spec (id_of el) i) as [E|E]; simpl.
    + split; [intros [_ H]; discriminate | intros [_ H]; contradiction].
    + tauto.
  - unfold uniqueIds, ids, removeById.
    induction (elements st) as [|el els IH]; intros Hnd Hin; [contradiction|].
    simpl in *. inversion Hnd as [|? ? Hnin Hnd']; subst.
    destruct (String.eqb_spec (id_of el) i) as [E|E]; simpl.
    + f_equal. f_equal.
      assert (Hrm : removeById i els = els).
      { apply removeById_absent. intros e He Hid. apply Hnin.
        rewrite E, <- Hid. now apply in_map. }
      exact Hrm.
    + f_equal. apply IH; [exact Hnd'|].
      destruct Hin as [Hin|Hin]; [contradiction | exact Hin].
  - apply removeById_absent. intros el Hin. unfold removeById in Hin.
    apply filter_In in Hin. destruct Hin as [_ Hin].
    destruct (String.eqb_spec (id_of el) i); [discriminate | assumption].
Qed.

End EditFacts.

(** ** The history, further *)

Section HistoryMore.

Context {N : Number}.


(** X12: where the scene on display is the entry under the cursor, undo
    and redo are inverse to each other at every cursor position: an undo
    that moves is taken back by a redo, and a redo that moves by an undo,
    each returning the very state it started from. *)
Theorem undo_and_redo_are_inverse (st : State) :
  showsCursor st ->
  ((0 < historyIndex st)%Z ->
   exists u, handleUndo st = Some u /\ u <> st /\ handleRedo u = Some st) /\
  ((historyIndex st < Z.of_nat (length (history st)) - 1)%Z ->
   exists r, handleRedo st = Some r /\ r <> st /\ handleUndo r = Some st).
Proof.
  intros [Hr Hs]. split; intros Hi.
  - destruct (@lookup_in_range _ (history st) (historyIndex st - 1))
      as [sc Hsc]; [lia|].
    exists (moveCursor (historyIndex st - 1) sc st).
    split; [now apply handleUndo_moves|]. split.
    + intros E. apply (f_equal historyIndex) in E. simpl in E. lia.
    + rewrite (@handleRedo_moves _ (moveCursor (historyIndex st - 1) sc st) (elements st)).
      * simpl.
        replace (historyIndex st - 1 + 1)%Z with (historyIndex st) by lia.
        now rewrite moveCursor_twice, moveCursor_self.
      * simpl. lia.
      * simpl.
        replace (historyIndex st - 1 + 1)%Z with (historyIndex st) by lia.
        exact Hs.
  - destruct (@lookup_in_range _ (history st) (historyIndex st + 1))
      as [sc Hsc]; [lia|].
    exists (moveCursor (historyIndex st + 1) sc st).
    split; [now apply handleRedo_moves|]. split.
    + intros E. apply (f_equal historyIndex) in E. simpl in E. lia.
    + rewrite (@handleUndo_moves _ (moveCursor (historyIndex st + 1) sc st) (elements st)).
      * simpl.
        replace (historyIndex st + 1 - 1)%Z with (historyIndex st) by lia.
        now rewrite moveCursor_twice, moveCursor_self.
      * simpl. lia.
      * simpl.
        replace (historyIndex st + 1 - 1)%Z with (historyIndex st) by lia.
        exact Hs.
Qed.

(** X13: clearing the canvas and loading a project cannot be undone:
    they empty the history, and after them any number of undos and redos
    leaves the state as it is. *)
Theorem clear_and_load_cannot_be_undone (st : State)
  (projectElements : list Element) (k : nat) :
  elements (confirmClear st) = [] /\
  canUndo (confirmClear st) = false /\ canRedo (confirmClear st) = false /\
  repeatM k handleUndo (confirmClear st) = Some (confirmClear st) /\
  repeatM k handleRedo (confirmClear st) = Some (confirmClear st) /\
  elements (loadProject projectElements st) = projectElements /\
  canUndo (loadProject projectElements st) = false /\
  canRedo (loadProject projectElements st) = false /\
  repeatM k handleUndo (loadProject projectElements st)
    = Some (loadProject projectElements st) /\
  repeatM k handleRedo (loadProject projectElements st)
    = Some (loadProject projectElements st).
Proof.
  assert (Hidle : forall s : State,
             history s = [] -> historyIndex s = (-1)%Z ->
             repeatM k handleUndo s = Some s /\
             repeatM k handleRedo s = Some s).
  { intros s Hh Hi. induction k as [|k [IHu IHr]]; [now split|].
    simpl. rewrite handleUndo_noop by lia.
    rewrite handleRedo_noop by (rewrite Hh, Hi; simpl; lia).
    now split. }
  destruct (Hidle (confirmClear st) eq_refl eq_refl) as [H1 H2].
  destruct (Hidle (loadProject projectElements st) eq_refl eq_refl)
    as [H3 H4].
  repeat split; assumption.
Qed.


End HistoryMore.

(** ** Geometry over the reals, further *)

Section IdealGeometryMore.

Import Plane.

Local Open Scope R_scope.

Ltac ideal_hit :=
  cbv beta iota zeta delta
    [rectangleHit circleHit hitsElement boxHit add sub mul div sqrt abs min
     max ltb leb eqb truthy ofZ num gtb geb neqb Ideal.number Ideal.Rltb
     Ideal.Rleb Ideal.Reqb px py x y].

Lemma pointDistance_nonneg (P Q : RPoint) : 0 <= pointDistance P Q.
Proof. unfold pointDistance. apply sqrt_pos. Qed.

Lemma pointDistance_along_0 (P A B : RPoint) :
  pointDistance P (along A B 0) = pointDistance P A.
Proof.
  destruct P as [p1 p2], A as [a1 a2], B as [b1 b2].
  unfold pointDistance, along, px, py. simpl. f_equal. ring.
Qed.

Lemma pointDistance_along_1 (P A B : RPoint) :
  pointDistance P (along A B 1) = pointDistance P B.
Proof.
  destruct P as [p1 p2], A as [a1 a2], B as [b1 b2].
  unfold pointDistance, along, px, py. simpl. f_equal. ring.
Qed.

Lemma pointDistance_along_flip (P A B : RPoint) (s : R) :
  pointDistance P (along B A s) = pointDistance P (along A B (1 - s)).
Proof.
  destruct P as [p1 p2], A as [a1 a2], B as [b1 b2].
  unfold pointDistance, along, px, py. simpl. f_equal. ring.
Qed.

Lemma pointDistance_along_same (P A : RPoint) (s : R) :
  pointDistance P (along A A s) = pointDistance P A.
Proof.
  destruct P as [p1 p2], A as [a1 a2].
  unfold pointDistance, along, px, py. simpl. f_equal. ring.
Qed.

Lemma lenSq_zero_same (A B : RPoint) :
  (px B - px A) * (px B - px A) + (py B - py A) * (py B - py A) = 0 ->
  A = B.
Proof.
  destruct A as [a1 a2], B as [b1 b2]. unfold px, py. simpl. intros H.
  apply sum_sq_zero in H. destruct H as [H1 H2]. f_equal; lra.
Qed.

(** Before the start of the segment the distance grows with the
    parameter. *)
Lemma start_is_nearest (P A B : RPoint) (s : R) :
  A <> B -> projection P A B < 0 -> 0 <= s ->
  pointDistance P A <= pointDistance P (along A B s).
Proof.
  intros Hne Ht Hs. pose proof (lenSq_nonzero Hne) as HL.
  destruct P as [p1 p2], A as [a1 a2], B as [b1 b2].
  unfold pointDistance, along, projection, px, py in *. simpl in *.
  set (L := (b1 - a1) * (b1 - a1) + (b2 - a2) * (b2 - a2)) in *.
  set (dot := (p1 - a1) * (b1 - a1) + (p2 - a2) * (b2 - a2)) in *.
  assert (HLge : 0 <= L)
    by (apply Rplus_le_le_0_compat; apply Rle_0_sqr).
  assert (HLpos : 0 < L)
    by (destruct HLge as [H|H]; [exact H | now symmetry in H]).
  assert (Hdot : dot < 0).
  { assert (Het : dot = dot / L * L) by (field; exact HL).
    assert (Hneg : 0 < - (dot / L) * L) by (apply Rmult_lt_0_compat; lra).
    lra. }
  apply sqrt_le_1_alt.
  assert (Hd : (p1 - (a1 + s * (b1 - a1))) * (p1 - (a1 + s * (b1 - a1))) +
               (p2 - (a2 + s * (b2 - a2))) * (p2 - (a2 + s * (b2 - a2))) =
               (p1 - a1) * (p1 - a1) + (p2 - a2) * (p2 - a2) +
               s * (- dot) * 2 + s * s * L) by (unfold dot, L; ring).
  rewrite Hd.
  assert (H1 : 0 <= s * (- dot)) by (apply Rmult_le_pos; lra).
  assert (H2 : 0 <= s * s * L)
    by (apply Rmult_le_pos; [apply Rle_0_sqr | lra]).
  lra.
Qed.

(** Past the end of the segment it shrinks with the parameter. *)
Lemma end_is_nearest (P A B : RPoint) (s : R) :
  A <> B -> 1 < projection P A B -> s <= 1 ->
  pointDistance P B <= pointDistance P (along A B s).
Proof.
  intros Hne Ht Hs. pose proof (lenSq_nonzero Hne) as HL.
  destruct P as [p1 p2], A as [a1 a2], B as [b1 b2].
  unfold pointDistance, along, projection, px, py in *. simpl in *.
  set (L := (b1 - a1) * (b1 - a1) + (b2 - a2) * (b2 - a2)) in *.
  set (dot := (p1 - a1) * (b1 - a1) + (p2 - a2) * (b2 - a2)) in *.
  assert (HLge : 0 <= L)
    by (apply Rplus_le_le_0_compat; apply Rle_0_sqr).
  assert (HLpos : 0 < L)
    by (destruct HLge as [H|H]; [exact H | now symmetry in H]).
  assert (Hdot : L < dot).
  { assert (Het : dot = dot / L * L) by (field; exact HL).
    assert (Hpos : 0 < (dot / L - 1) * L) by (apply Rmult_lt_0_compat; lra).
    lra. }
  apply sqrt_le_1_alt.
  assert (Hd : (p1 - (a1 + s * (b1 - a1))) * (p1 - (a1 + s * (b1 - a1))) +
               (p2 - (a2 + s * (b2 - a2))) * (p2 - (a2 + s * (b2 - a2))) =
               (p1 - b1) * (p1 - b1) + (p2 - b2) * (p2 - b2) +
               (1 - s) * (dot - L) * 2 + (1 - s) * (1 - s) * L)
    by (unfold dot, L; ring).
  rewrite Hd.
  assert (H1 : 0 <= (1 - s) * (dot - L)) by (apply Rmult_le_pos; lra).
  assert (H2 : 0 <= (1 - s) * (1 - s) * L)
    by (apply Rmult_le_pos; [apply Rle_0_sqr | lra]).
  lra.
Qed.

(** The two halves of the characterisation, shared below. *)
Lemma segment_distance_lower (P A B : RPoint) (s : R) :
  0 <= s <= 1 -> distanceToSegment P A B <= pointDistance P (along A B s).
Proof.
  intros Hs. rewrite distanceToSegment_cases. unfold segmentParam.
  destruct (Req_dec_T _ 0) as [E|E].
  - apply lenSq_zero_same in E. subst B.
    destruct (Rlt_dec (-1) 0) as [_|H]; [|lra].
    rewrite pointDistance_along_same. lra.
  - assert (Hne : A <> B).
    { intros ->. apply E. ring. }
    destruct (Rlt_dec (projection P A B) 0) as [H0|H0].
    + apply start_is_nearest; [exact Hne | exact H0 | lra].
    + destruct (Rlt_dec 1 (projection P A B)) as [H1|H1].
      * apply end_is_nearest; [exact Hne | exact H1 | lra].
      * now apply foot_is_nearest.
Qed.

Lemma segment_distance_attained (P A B : RPoint) :
  exists s, 0 <= s <= 1 /\
    distanceToSegment P A B = pointDistance P (along A B s).
Proof.
  rewrite distanceToSegment_cases. unfold segmentParam.
  destruct (Req_dec_T _ 0) as [E|E].
  - destruct (Rlt_dec (-1) 0) as [_|H]; [|lra].
    exists 0. split; [lra|]. now rewrite pointDistance_along_0.
  - destruct (Rlt_dec (projection P A B) 0) as [H0|H0].
    + exists 0. split; [lra|]. now rewrite pointDistance_along_0.
    + destruct (Rlt_dec 1 (projection P A B)) as [H1|H1].
      * exists 1. split; [lra|]. now rewrite pointDistance_along_1.
      * exists (projection P A B). split; [lra | reflexivity].
Qed.

(** X15: over the reals, [distanceToSegment P A B] is the distance from P
    to the segment from A to B: no point of the segment is nearer to P, and
    some point of the segment is exactly that far. *)
Theorem distanceToSegment_is_the_segment_distance (P A B : RPoint) :
  (forall s, 0 <= s <= 1 ->
      distanceToSegment P A B <= pointDistance P (along A B s)) /\
  (exists s, 0 <= s <= 1 /\
      distanceToSegment P A B = pointDistance P (along A B s)).
Proof.
  split.
  - intros s Hs. now apply segment_distance_lower.
  - apply segment_distance_attained.
Qed.

(** X16: over the reals, [distanceToSegment] does not depend on the order
    of the two endpoints, is never negative, and is zero exactly at the
    points of the segment; so an arrow is hit at every point of its own
    segment, whichever way it points. *)
Theorem distanceToSegment_symmetric_and_zero_on_segment (P A B : RPoint) :
  distanceToSegment P A B = distanceToSegment P B A /\
  0 <= distanceToSegment P A B /\
  (distanceToSegment P A B = 0 <->
   exists s, 0 <= s <= 1 /\ P = along A B s) /\
  (forall (b : @BaseElement Ideal.number) (s : R),
      0 <= s <= 1 ->
      hitsElement (along A B s) (ShapeElement b arrow A B) = true /\
      hitsElement (along A B s) (ShapeElement b arrow B A) = true).
Proof.
  assert (Hsym : forall Q A' B' : RPoint,
             distanceToSegment Q A' B' <= distanceToSegment Q B' A').
  { intros Q A' B'.
    destruct (segment_distance_attained Q B' A') as (s & Hs & ->).
    rewrite pointDistance_along_flip.
    apply segment_distance_lower. lra. }
  assert (Hnn : forall Q A' B' : RPoint, 0 <= distanceToSegment Q A' B').
  { intros Q A' B'.
    destruct (segment_distance_attained Q A' B') as (s & _ & ->).
    apply pointDistance_nonneg. }
  assert (Hon : forall (A' B' : RPoint) (s : R), 0 <= s <= 1 ->
             distanceToSegment (along A' B' s) A' B' = 0).
  { intros A' B' s Hs. apply Rle_antisym; [|apply Hnn].
    pose proof (segment_distance_lower (along A' B' s) A' B' s Hs) as H.
    assert (Hz : pointDistance (along A' B' s) (along A' B' s) = 0).
    { unfold pointDistance.
      replace ((px (along A' B' s) - px (along A' B' s)) *
               (px (along A' B' s) - px (along A' B' s)) +
               (py (along A' B' s) - py (along A' B' s)) *
               (py (along A' B' s) - py (along A' B' s))) with 0 by ring.
      apply sqrt_0. }
    lra. }
  split; [apply Rle_antisym; apply Hsym|].
  split; [apply Hnn|]. split.
  - split.
    + intros H0.
      destruct (segment_distance_attained P A B) as (s & Hs & Hd).
      exists s. split; [exact Hs|].
      rewrite H0 in Hd. symmetry in Hd. unfold pointDistance in Hd.
      apply sqrt_eq_0 in Hd;
        [|apply Rplus_le_le_0_compat; apply Rle_0_sqr].
      apply sum_sq_zero in Hd. destruct Hd as [H1 H2].
      destruct P as [p1 p2]. unfold along, px, py in *. simpl in *.
      f_equal; lra.
    + intros (s & Hs & ->). now apply Hon.
  - intros b s Hs.
    assert (Hhit : forall d : R, d = 0 -> Ideal.Rltb d 10 = true).
    { intros d ->. unfold Ideal.Rltb.
      destruct (Rlt_dec 0 10) as [_|H]; [reflexivity | lra]. }
    split.
    + apply Hhit. now apply Hon.
    + apply Hhit. apply Rle_antisym; [|apply Hnn].
      rewrite <- (Hon A B s Hs). apply Hsym.
Qed.

Lemma Rleb_iff (a b : R) : Ideal.Rleb a b = true <-> a <= b.
Proof.
  unfold Ideal.Rleb. destruct (Rle_dec a b); split; intros; try easy; lra.
Qed.

Lemma rectangleHit_iff (p s e : RPoint) :
  rectangleHit p s e = true <->
  Rmin (px s) (px e) <= px p <= Rmax (px s) (px e) /\
  Rmin (py s) (py e) <= py p <= Rmax (py s) (py e).
Proof.
  unfold rectangleHit, geb. cbn [leb min max Ideal.number].
  rewrite !andb_true_iff, !Rleb_iff. unfold px, py. tauto.
Qed.

(** X17: over the reals, a rectangle is hit exactly at the points of the
    closed box spanned by its two corners, whichever of the four ways the
    corners are given; its corners are hit; and a rectangle of no extent, as
    a click without a drag leaves it, is hit at its one point only. *)
Theorem rectangleHit_is_the_closed_box (p s e : RPoint) :
  (rectangleHit p s e = true <->
   Rmin (px s) (px e) <= px p <= Rmax (px s) (px e) /\
   Rmin (py s) (py e) <= py p <= Rmax (py s) (py e)) /\
  rectangleHit p e s = rectangleHit p s e /\
  rectangleHit p (@mkPoint Ideal.number (px s) (py e))
    (@mkPoint Ideal.number (px e) (py s)) = rectangleHit p s e /\
  rectangleHit s s e = true /\ rectangleHit e s e = true /\
  (rectangleHit p s s = true <-> p = s).
Proof.
  assert (Hbool : forall b1 b2 : bool,
             (b1 = true <-> b2 = true) -> b1 = b2).
  { intros [] [] [H1 H2]; try reflexivity;
      [symmetry; now apply H1 | now apply H2]. }
  split; [apply rectangleHit_iff|]. split; [|split; [|split; [|split]]].
  - apply Hbool. rewrite !rectangleHit_iff.
    rewrite (Rmin_comm (px e)), (Rmax_comm (px e)),
      (Rmin_comm (py e)), (Rmax_comm (py e)). tauto.
  - apply Hbool. rewrite !rectangleHit_iff. unfold px, py. simpl.
    rewrite (Rmin_comm (y e)), (Rmax_comm (y e)). tauto.
  - apply rectangleHit_iff.
    pose proof (Rmin_l (px s) (px e)). pose proof (Rmax_l (px s) (px e)).
    pose proof (Rmin_l (py s) (py e)). pose proof (Rmax_l (py s) (py e)).
    lra.
  - apply rectangleHit_iff.
    pose proof (Rmin_r (px s) (px e)). pose proof (Rmax_r (px s) (px e)).
    pose proof (Rmin_r (py s) (py e)). pose proof (Rmax_r (py s) (py e)).
    lra.
  - rewrite rectangleHit_iff.
    rewrite !Rmin_left, !Rmax_left by lra.
    destruct p as [p1 p2], s as [s1 s2]. unfold px, py. simpl. split.
    + intros [H1 H2]. f_equal; lra.
    + intros [= -> ->]. lra.
Qed.

Lemma sqrt_le_1_iff (a : R) : 0 <= a -> (R_sqrt.sqrt a <= 1 <-> a <= 1).
Proof.
  intros Ha. split; intros H.
  - rewrite <- (sqrt_sqrt a Ha).
    pose proof (sqrt_pos a) as Hp.
    assert (R_sqrt.sqrt a * R_sqrt.sqrt a <= 1 * 1)
      by (apply Rmult_le_compat; lra).
    lra.
  - rewrite <- sqrt_1. now apply sqrt_le_1_alt.
Qed.

Lemma circleHit_iff (p s e : RPoint) :
  circleHit p s e = true <->
  let nx := (px p - (px s + px e) / 2) / (Rabs (px e - px s) / 2) in
  let ny := (py p - (py s + py e) / 2) / (Rabs (py e - py s) / 2) in
  nx * nx + ny * ny <= 1.
Proof.
  unfold circleHit. cbn [leb sqrt add sub mul div abs ofZ Ideal.number].
  rewrite Rleb_iff. unfold px, py. cbv zeta.
  apply sqrt_le_1_iff.
  apply Rplus_le_le_0_compat; apply Rle_0_sqr.
Qed.

Lemma half_span (a b c : R) :
  a <> b -> c = Rabs (b - a) / 2 ->
  0 < c /\ Rmin a b = (a + b) / 2 - c /\ Rmax a b = (a + b) / 2 + c /\
  ((a - (a + b) / 2) / c) * ((a - (a + b) / 2) / c) = 1 /\
  ((b - (a + b) / 2) / c) * ((b - (a + b) / 2) / c) = 1.
Proof.
  intros Hne ->. unfold Rabs, Rmin, Rmax.
  destruct (Rcase_abs (b - a)), (Rle_dec a b); try lra;
    (split; [lra|]; split; [lra|]; split; [lra|]; split; field; lra).
Qed.

Lemma within_half_span (q c d n : R) :
  0 < d -> n = (q - c) / d -> n * n <= 1 -> c - d <= q <= c + d.
Proof.
  intros Hd Hn Hsq.
  assert (Hq : q - c = n * d) by (rewrite Hn; field; lra).
  assert (H1 : -1 <= n <= 1) by (split; nra).
  assert (H2 : 0 <= (1 - n) * d) by (apply Rmult_le_pos; lra).
  assert (H3 : 0 <= (n + 1) * d) by (apply Rmult_le_pos; lra).
  lra.
Qed.

(** X18: over the reals, a circle (an ellipse) whose two corners differ in
    both coordinates is hit exactly inside the ellipse inscribed in the box
    spanned by the corners, boundary included, whichever way the corners are
    given.  Every point that hits it also hits the rectangle with the same
    corners; the centre of the box hits; the two corners do not. *)
Theorem circleHit_is_the_inscribed_ellipse (p s e : RPoint) :
  px s <> px e -> py s <> py e ->
  (circleHit p s e = true <->
   let nx := (px p - (px s + px e) / 2) / (Rabs (px e - px s) / 2) in
   let ny := (py p - (py s + py e) / 2) / (Rabs (py e - py s) / 2) in
   nx * nx + ny * ny <= 1) /\
  circleHit p e s = circleHit p s e /\
  (circleHit p s e = true -> rectangleHit p s e = true) /\
  circleHit
    (@mkPoint Ideal.number ((px s + px e) / 2) ((py s + py e) / 2)) s e
    = true /\
  circleHit s s e = false /\ circleHit e s e = false.
Proof.
  intros Hx Hy.
  destruct (half_span (px s) (px e) _ Hx eq_refl)
    as (Hrx & Hminx & Hmaxx & Hsx & Hex).
  destruct (half_span (py s) (py e) _ Hy eq_refl)
    as (Hry & Hminy & Hmaxy & Hsy & Hey).
  split; [apply circleHit_iff|]. split; [|split; [|split; [|split]]].
  - unfold circleHit. cbn [leb sqrt add sub mul div abs ofZ Ideal.number].
    rewrite (Rplus_comm (x e) (x s)), (Rplus_comm (y e) (y s)).
    rewrite (Rabs_minus_sym (x s) (x e)), (Rabs_minus_sym (y s) (y e)).
    reflexivity.
  - rewrite circleHit_iff, rectangleHit_iff. cbv zeta. intros H.
    set (nx := (px p - (px s + px e) / 2) / (Rabs (px e - px s) / 2)) in *.
    set (ny := (py p - (py s + py e) / 2) / (Rabs (py e - py s) / 2)) in *.
    assert (Hnx : nx * nx <= 1)
      by (pose proof (Rle_0_sqr ny) as Hq; unfold Rsqr in Hq; lra).
    assert (Hny : ny * ny <= 1)
      by (pose proof (Rle_0_sqr nx) as Hq; unfold Rsqr in Hq; lra).
    pose proof (within_half_span (px p) _ _ nx Hrx eq_refl Hnx).
    pose proof (within_half_span (py p) _ _ ny Hry eq_refl Hny).
    rewrite Hminx, Hmaxx, Hminy, Hmaxy. lra.
  - apply circleHit_iff. unfold px, py. simpl.
    replace ((x s + x e) / 2 - (x s + x e) / 2) with 0 by ring.
    replace ((y s + y e) / 2 - (y s + y e) / 2) with 0 by ring.
    unfold Rdiv at 1 3 5 7. rewrite !Rmult_0_l. lra.
  - destruct (circleHit s s e) eqn:E; [|reflexivity].
    apply circleHit_iff in E. cbv zeta in E. lra.
  - destruct (circleHit e s e) eqn:E; [|reflexivity].
    apply circleHit_iff in E. cbv zeta in E. lra.
Qed.

End IdealGeometryMore.

(** ** The overlay components *)

Section OverlayFacts.

Context {N : Number}.

Lemma run_alwaysCommits (evs : list Event) : forall st : State,
  forallb alwaysCommits evs = true ->
  exists st',
    run evs st = Some st' /\
    historyIndex st' = (historyIndex st + Z.of_nat (length evs))%Z.
Proof.
  induction evs as [|ev evs IH]; intros st Hall.
  - exists st. split; [reflexivity | simpl; lia].
  - simpl in Hall. apply andb_true_iff in Hall. destruct Hall as [Hev Hall].
    assert (Hstep : exists st1, handle ev st = Some st1 /\
                      historyIndex st1 = (historyIndex st + 1)%Z).
    { destruct ev; try discriminate; simpl; eexists; split;
        reflexivity. }
    destruct Hstep as (st1 & H1 & Hi1).
    destruct (IH st1 Hall) as (st' & Hrun & Hi).
    exists st'. simpl run. rewrite H1. split; [exact Hrun|].
    rewrite Hi, Hi1. simpl length. lia.
Qed.

Lemma run_positionChanges (evs : list Event) : forall st : State,
  forallb isPositionChange evs = true ->
  exists st',
    run evs st = Some st' /\
    history st' = history st /\ historyIndex st' = historyIndex st.
Proof.
  induction evs as [|ev evs IH]; intros st Hall.
  - exists st. now repeat split.
  - simpl in Hall. apply andb_true_iff in Hall. destruct Hall as [Hev Hall].
    destruct ev; try discriminate. simpl run.
    destruct (IH (handlePositionChange id0 newPosition st) Hall)
      as (st' & Hrun & Hh & Hi).
    exists st'. now repeat split.
Qed.

Lemma text_session_app (props : TextEditorView.Props)
  (uis1 uis2 : list TextEditorView.Ui) (c : TextEditorView.Cells) :
  TextEditorView.session props (uis1 ++ uis2) c =
  let '(c1, evs1) := TextEditorView.session props uis1 c in
  let '(c2, evs2) := TextEditorView.session props uis2 c1 in
  (c2, evs1 ++ evs2).
Proof.
  revert c. induction uis1 as [|ui uis1 IH]; intros c; simpl.
  - destruct (TextEditorView.session props uis2 c). reflexivity.
  - destruct (TextEditorView.step props ui c) as [c1 evs1].
    rewrite IH.
    destruct (TextEditorView.session props uis1 c1) as [c2 evs2].
    destruct (TextEditorView.session props uis2 c2) as [c3 evs3].
    now rewrite app_assoc.
Qed.

(** X19: whatever the user does to a text box, in any order, the box
    reports only about its own element, and only a text change, a deletion, a
    position or a size; and it never reports an empty text: leaving the box
    empty puts the placeholder back instead. *)
Theorem text_box_never_reports_an_empty_text
  (props : TextEditorView.Props) (uis : list TextEditorView.Ui)
  (c : TextEditorView.Cells) :
  Forall
    (fun ev =>
       callbackId ev = Some (TextEditorView.id props) /\
       match ev with
       | ev_textChange _ t => t <> ""
       | ev_delete _ | ev_positionChange _ _ | ev_textResize _ _ _ => True
       | _ => False
       end)
    (snd (TextEditorView.session props uis c)).
Proof.
  revert c. induction uis as [|ui uis IH]; intros c; simpl.
  - constructor.
  - destruct (TextEditorView.step props ui c) as [c1 evs1] eqn:Hstep.
    specialize (IH c1).
    destruct (TextEditorView.session props uis c1) as [c2 evs2].
    simpl in *. apply Forall_app. split; [|exact IH].
    destruct ui; simpl in Hstep.
    + injection Hstep as <- <-. constructor.
    + unfold TextEditorView.handleMouseMove in Hstep.
      destruct (TextEditorView.isDragging c);
        [|destruct (TextEditorView.isResizing c)];
        injection Hstep as <- <-; repeat constructor.
    + injection Hstep as <- <-. constructor.
    + injection Hstep as <- <-. constructor.
    + injection Hstep as <- <-. constructor.
    + unfold TextEditorView.handleBlur in Hstep.
      destruct (String.eqb_spec (TextEditorView.text c) "");
        injection Hstep as <- <-; repeat constructor. assumption.
    + injection Hstep as <- <-. repeat constructor.
    + injection Hstep as <- <-. constructor.
Qed.

Lemma text_moves_dragging (props : TextEditorView.Props) (ms : list Mouse) :
  forall c : TextEditorView.Cells,
  TextEditorView.isDragging c = true ->
  let evs :=
    snd (TextEditorView.session props (map TextEditorView.ui_mouseMove ms) c)
  in
  forallb isPositionChange evs = true /\ length evs = length ms.
Proof.
  induction ms as [|m ms IH]; intros c Hd; [now split|].
  simpl. unfold TextEditorView.handleMouseMove. rewrite Hd.
  specialize (IH c Hd). simpl in IH.
  destruct (TextEditorView.session props _ c) as [c2 evs2].
  simpl in *. destruct IH as [H1 H2]. now rewrite H1, H2.
Qed.

Lemma text_moves_resizing (props : TextEditorView.Props) (ms : list Mouse) :
  forall c : TextEditorView.Cells,
  TextEditorView.isDragging c = false ->
  TextEditorView.isResizing c = true ->
  let evs :=
    snd (TextEditorView.session props (map TextEditorView.ui_mouseMove ms) c)
  in
  forallb alwaysCommits evs = true /\ length evs = length ms.
Proof.
  induction ms as [|m ms IH]; intros c Hd Hr; [now split|].
  simpl. unfold TextEditorView.handleMouseMove. rewrite Hd, Hr.
  match goal with
  | |- context [TextEditorView.session props _ ?c1] =>
      specialize (IH c1 eq_refl eq_refl); simpl in IH;
      destruct (TextEditorView.session props _ c1) as [c2 evs2]
  end.
  simpl in *. destruct IH as [H1 H2]. now rewrite H1, H2.
Qed.

Lemma note_moves_dragging (props : StickyNoteView.Props) (ms : list Mouse) :
  forall c : StickyNoteView.Cells,
  StickyNoteView.isDragging c = true ->
  let evs :=
    snd (StickyNoteView.session props (map StickyNoteView.ui_mouseMove ms) c)
  in
  forallb isPositionChange evs = true /\ length evs = length ms.
Proof.
  induction ms as [|m ms IH]; intros c Hd; [now split|].
  simpl. unfold StickyNoteView.handleMouseMove. rewrite Hd.
  specialize (IH c Hd). simpl in IH.
  destruct (StickyNoteView.session props _ c) as [c2 evs2].
  simpl in *. destruct IH as [H1 H2]. now rewrite H1, H2.
Qed.

Lemma note_moves_resizing (props : StickyNoteView.Props) (ms : list Mouse) :
  forall c : StickyNoteView.Cells,
  StickyNoteView.isDragging c = false ->
  StickyNoteView.isResizing c = true ->
  let evs :=
    snd (StickyNoteView.session props (map StickyNoteView.ui_mouseMove ms) c)
  in
  forallb alwaysCommits evs = true /\ length evs = length ms.
Proof.
  induction ms as [|m ms IH]; intros c Hd Hr; [now split|].
  simpl. unfold StickyNoteView.handleMouseMove. rewrite Hd, Hr.
  match goal with
  | |- context [StickyNoteView.session props _ ?c1] =>
      specialize (IH c1 eq_refl eq_refl); simpl in IH;
      destruct (StickyNoteView.session props _ c1) as [c2 evs2]
  end.
  simpl in *. destruct IH as [H1 H2]. now rewrite H1, H2.
Qed.

Lemma image_moves (props : ImageView.Props) (c : ImageView.Cells)
  (ms : list Mouse) :
  let evs := flat_map (fun m => ImageView.handleMouseMove props m c) ms in
  (ImageView.isDragging c = true -> ImageView.isResizing c = false ->
   forallb isPositionChange evs = true /\ length evs = length ms) /\
  (ImageView.isResizing c = true ->
   forallb alwaysCommits evs = true /\ length evs = length ms).
Proof.
  simpl. split.
  - intros Hd Hr. induction ms as [|m ms [IH1 IH2]]; [now split|].
    simpl. unfold ImageView.handleMouseMove at 1 3. rewrite Hd, Hr. simpl.
    now rewrite IH1, IH2.
  - intros Hr. induction ms as [|m ms [IH1 IH2]]; [now split|].
    simpl. unfold ImageView.handleMouseMove at 1 3. rewrite Hr.
    rewrite andb_false_r.
    destruct (ImageView.resizedTo m c) as [w h]. simpl.
    now rewrite IH1, IH2.
Qed.

(** X20: dragging an overlay (a text box, a note or an image) never
    touches the history, however many pointer moves it takes, whereas
    resizing one records one history entry per pointer move: after a resize
    over n moves the cursor stands n entries further. *)
Theorem drags_are_not_recorded_and_resizes_are_per_move
  (ms : list Mouse) (st : State) :
  (forall (props : TextEditorView.Props) (c : TextEditorView.Cells),
      let evs :=
        snd (TextEditorView.session props
               (map TextEditorView.ui_mouseMove ms) c) in
      (TextEditorView.isDragging c = true ->
       exists st', run evs st = Some st' /\
         history st' = history st /\ historyIndex st' = historyIndex st) /\
      (TextEditorView.isDragging c = false ->
       TextEditorView.isResizing c = true ->
       exists st', run evs st = Some st' /\
         historyIndex st' = (historyIndex st + Z.of_nat (length ms))%Z)) /\
  (forall (props : StickyNoteView.Props) (c : StickyNoteView.Cells),
      let evs :=
        snd (StickyNoteView.session props
               (map StickyNoteView.ui_mouseMove ms) c) in
      (StickyNoteView.isDragging c = true ->
       exists st', run evs st = Some st' /\
         history st' = history st /\ historyIndex st' = historyIndex st) /\
      (StickyNoteView.isDragging c = false ->
       StickyNoteView.isResizing c = true ->
       exists st', run evs st = Some st' /\
         historyIndex st' = (historyIndex st + Z.of_nat (length ms))%Z)) /\
  (forall (props : ImageView.Props) (c : ImageView.Cells),
      let evs :=
        flat_map (fun m => ImageView.handleMouseMove props m c) ms in
      (ImageView.isDragging c = true -> ImageView.isResizing c = false ->
       exists st', run evs st = Some st' /\
         history st' = history st /\ historyIndex st' = historyIndex st) /\
      (ImageView.isResizing c = true ->
       exists st', run evs st = Some st' /\
         historyIndex st' = (historyIndex st + Z.of_nat (length ms))%Z)).
Proof.
  split; [|split].
  - intros props c evs. split.
    + intros Hd. destruct (text_moves_dragging props ms c Hd) as [H1 _].
      now apply run_positionChanges.
    + intros Hd Hr.
      destruct (text_moves_resizing props ms c Hd Hr) as [H1 H2].
      destruct (run_alwaysCommits _ st H1) as (st' & Hrun & Hi).
      exists st'. split; [exact Hrun|]. rewrite Hi. fold evs in H2 |- *.
      now rewrite H2.
  - intros props c evs. split.
    + intros Hd. destruct (note_moves_dragging props ms c Hd) as [H1 _].
      now apply run_positionChanges.
    + intros Hd Hr.
      destruct (note_moves_resizing props ms c Hd Hr) as [H1 H2].
      destruct (run_alwaysCommits _ st H1) as (st' & Hrun & Hi).
      exists st'. split; [exact Hrun|]. rewrite Hi. fold evs in H2 |- *.
      now rewrite H2.
  - intros props c evs. destruct (image_moves props c ms) as [Hdrag Hres].
    split.
    + intros Hd Hr. destruct (Hdrag Hd Hr) as [H1 _].
      now apply run_positionChanges.
    + intros Hr. destruct (Hres Hr) as [H1 H2].
      destruct (run_alwaysCommits _ st H1) as (st' & Hrun & Hi).
      exists st'. split; [exact Hrun|]. rewrite Hi. fold evs in H2 |- *.
      now rewrite H2.
Qed.

(** X21: clicking into a text box and leaving it without typing reports
    the text held in the box's own cell: the element's text when the box was
    mounted, whatever the element's text is now (an undo changes the element
    and not the cell).  At the placeholder, or empty, the box reports
    nothing and shows the placeholder.  Any other text held is reported: it
    becomes the text of the element and one history entry is recorded; the
    scene stays as it is exactly when the text held is the element's. *)
Theorem focusing_a_text_box_reports_the_text_it_holds
  (st : State) (pre post : list Element) (b : BaseElement) (p : Point)
  (t : string) (w h : option num) (f : TextFormat)
  (c : TextEditorView.Cells) :
  elements st = pre ++ TextElement b p t w h f :: post ->
  ~ In (id b) (ids pre) -> ~ In (id b) (ids post) ->
  exists props,
    textEditorProps (TextElement b p t w h f) = Some props /\
    TextEditorView.text (TextEditorView.init props) = t /\
    let result :=
      TextEditorView.session props
        [TextEditorView.ui_click; TextEditorView.ui_blur] c in
    let held := TextEditorView.text c in
    (held = "" \/ held = TextEditorView.placeholder ->
     snd result = [] /\
     TextEditorView.text (fst result) = TextEditorView.placeholder) /\
    (held <> "" -> held <> TextEditorView.placeholder ->
     snd result = [ev_textChange (id b) held] /\
     TextEditorView.text (fst result) = held /\
     exists st',
       run (snd result) st = Some st' /\
       elements st' = pre ++ TextElement b p held w h f :: post /\
       historyIndex st' = (historyIndex st + 1)%Z /\ st' <> st /\
       (elements st' = elements st <-> held = t)).
Proof.
  intros He Hpre Hpost. eexists. split; [reflexivity|].
  split; [reflexivity|].
  cbv zeta. simpl TextEditorView.session.
  unfold TextEditorView.handleBlur, TextEditorView.handleClick.
  simpl TextEditorView.text.
  split.
  - intros [-> | ->]; simpl; now split.
  - intros Hne Hnp.
    destruct (String.eqb_spec (TextEditorView.text c)
                TextEditorView.placeholder) as [E|_]; [contradiction|].
    destruct (String.eqb_spec (TextEditorView.text c) "") as [E|_];
      [contradiction|].
    simpl. split; [reflexivity|]. split; [reflexivity|].
    assert (Hel : updateById (withText (TextEditorView.text c)) (id b)
                    (elements st) =
                  pre ++ TextElement b p (TextEditorView.text c) w h f
                    :: post).
    { rewrite He.
      exact (updateById_target (withText (TextEditorView.text c)) (id b)
               pre post (TextElement b p t w h f) eq_refl Hpre Hpost). }
    eexists. split; [reflexivity|]. split; [exact Hel|]. split; [|split].
    + reflexivity.
    + intros E. apply (f_equal historyIndex) in E. simpl in E. lia.
    + simpl. rewrite Hel, He. split.
      * intros E. apply app_inv_head in E. now injection E.
      * now intros ->.
Qed.

(** X22: typing into an overlay and leaving it sets the text of exactly
    that element in the scene and records one history entry: for a note any
    text, the empty one included, and for a text box any text but the empty
    one. *)
Theorem typing_sets_the_text_of_the_element
  (st : State) (pre post : list Element) (b : BaseElement) (p : Point)
  (t v : string) (w h : option num) :
  ~ In (id b) (ids pre) -> ~ In (id b) (ids post) ->
  (elements st = pre ++ NoteElement b p t w h :: post ->
   exists props,
     stickyNoteProps (NoteElement b p t w h) = Some props /\
     exists st',
       run (snd (StickyNoteView.session props
                   [StickyNoteView.ui_doubleClick;
                    StickyNoteView.ui_change v; StickyNoteView.ui_blur]
                   (StickyNoteView.init props))) st = Some st' /\
       elements st' = pre ++ NoteElement b p v w h :: post /\
       historyIndex st' = (historyIndex st + 1)%Z) /\
  (forall f : TextFormat,
      elements st = pre ++ TextElement b p t w h f :: post -> v <> "" ->
      exists props,
        textEditorProps (TextElement b p t w h f) = Some props /\
        exists st',
          run (snd (TextEditorView.session props
                      [TextEditorView.ui_click;
                       TextEditorView.ui_change v; TextEditorView.ui_blur]
                      (TextEditorView.init props))) st = Some st' /\
          elements st' = pre ++ TextElement b p v w h f :: post /\
          historyIndex st' = (historyIndex st + 1)%Z).
Proof.
  intros Hpre Hpost. split.
  - intros He. eexists. split; [reflexivity|].
    eexists. split; [reflexivity|]. split; [|reflexivity].
    simpl. rewrite He.
    now rewrite (updateById_target (withText v) (id b) pre post
                   (NoteElement b p t w h) eq_refl Hpre Hpost).
  - intros f He Hv. eexists. split; [reflexivity|].
    simpl TextEditorView.session.
    unfold TextEditorView.handleBlur. simpl TextEditorView.text.
    destruct (String.eqb_spec v "") as [E|_]; [contradiction|].
    eexists. split; [reflexivity|]. split; [|reflexivity].
    simpl. rewrite He.
    now rewrite (updateById_target (withText v) (id b) pre post
                   (TextElement b p t w h f) eq_refl Hpre Hpost).
Qed.

End OverlayFacts.

(** ** The overlay components over the reals *)

Section OverlayGeometry.

Import Plane.

Local Open Scope R_scope.

Lemma boxHit_iff (q pos : RPoint) (w h : R) :
  boxHit q pos w h = true <->
  px pos <= px q <= px pos + w /\ py pos <= py q <= py pos + h.
Proof.
  unfold boxHit, geb. cbn [leb add Ideal.number].
  rewrite !andb_true_iff, !Rleb_iff. unfold px, py. tauto.
Qed.

(** X23: over the reals, a resize never reports a size below the
    component's minimum: 150 by 100 for a text box, 150 by 150 for a note, 50
    by 50 for an image resized freely.  A proportional image resize keeps
    the aspect ratio the image had when the resize began and a width of at
    least 50, but puts no lower bound on the height. *)
Theorem resize_respects_the_minimum_size (e : @Mouse Ideal.number) :
  (forall (props : @TextEditorView.Props Ideal.number)
          (c : @TextEditorView.Cells Ideal.number),
      TextEditorView.isDragging c = false ->
      TextEditorView.isResizing c = true ->
      exists w h,
        snd (TextEditorView.handleMouseMove props e c) =
          [ev_textResize (TextEditorView.id props) w h] /\
        TextEditorView.textWidth
          (fst (TextEditorView.handleMouseMove props e c)) = w /\
        TextEditorView.textHeight
          (fst (TextEditorView.handleMouseMove props e c)) = h /\
        150 <= w /\ 100 <= h) /\
  (forall (props : @StickyNoteView.Props Ideal.number)
          (c : @StickyNoteView.Cells Ideal.number),
      StickyNoteView.isDragging c = false ->
      StickyNoteView.isResizing c = true ->
      exists w h,
        snd (StickyNoteView.handleMouseMove props e c) =
          [ev_textResize (StickyNoteView.id props) w h] /\
        150 <= w /\ 150 <= h) /\
  (forall c : @ImageView.Cells Ideal.number,
      ImageView.resizeMode c = ImageView.free ->
      50 <= fst (ImageView.resizedTo e c) /\
      50 <= snd (ImageView.resizedTo e c)) /\
  (forall c : @ImageView.Cells Ideal.number,
      ImageView.resizeMode c = ImageView.proportional ->
      fst (ImageView.resizeStartDims c) <> 0 ->
      snd (ImageView.resizeStartDims c) <> 0 ->
      50 <= fst (ImageView.resizedTo e c) /\
      fst (ImageView.resizedTo e c) * snd (ImageView.resizeStartDims c) =
      snd (ImageView.resizedTo e c) * fst (ImageView.resizeStartDims c)) /\
  (exists (e' : @Mouse Ideal.number) (c : @ImageView.Cells Ideal.number),
      ImageView.resizeMode c = ImageView.proportional /\
      snd (ImageView.resizedTo e' c) < 50).
Proof.
  split; [|split; [|split; [|split]]].
  - intros props c Hd Hr. unfold TextEditorView.handleMouseMove.
    rewrite Hd, Hr. do 2 eexists. split; [reflexivity|].
    split; [reflexivity|]. split; [reflexivity|].
    cbn [max ofZ Ideal.number]. split; apply Rmax_l.
  - intros props c Hd Hr. unfold StickyNoteView.handleMouseMove.
    rewrite Hd, Hr. do 2 eexists. split; [reflexivity|].
    cbn [max ofZ Ideal.number]. split; apply Rmax_l.
  - intros c Hm. unfold ImageView.resizedTo. rewrite Hm.
    cbn [max ofZ Ideal.number fst snd]. split; apply Rmax_l.
  - intros c Hm Hw Hh. unfold ImageView.resizedTo. rewrite Hm.
    cbn [max ofZ div add sub Ideal.number fst snd].
    split; [apply Rmax_l|]. field. split; assumption.
  - exists (@mkMouse Ideal.number (-1000) 0).
    exists (@ImageView.mkCells Ideal.number false true
              (@mkPoint Ideal.number 0 0) (@mkPoint Ideal.number 0 0)
              (400, 100) false ImageView.proportional).
    split; [reflexivity|].
    unfold ImageView.resizedTo.
    cbn [ImageView.resizeMode ImageView.resizeStartDims
         ImageView.resizeStartPos max ofZ div add sub Ideal.number fst snd
         clientX clientY x y].
    rewrite Rmax_left by lra. lra.
Qed.

Lemma find_target {N : Number} (i : string) (pre post : list Element)
  (el : Element) :
  id_of el = i -> ~ In i (ids pre) ->
  find (fun e => String.eqb (id_of e) i) (pre ++ el :: post) = Some el.
Proof.
  intros Hid Hpre. induction pre as [|a pre IH]; simpl.
  - now rewrite Hid, String.eqb_refl.
  - destruct (String.eqb_spec (id_of a) i) as [E|_].
    + exfalso. apply Hpre. left. exact E.
    + apply IH. intros Hin. apply Hpre. now right.
Qed.

(** X24: over the reals, each click on the rotate button of an image adds
    90 to its rotation and records one history entry; the rotation is never
    reduced modulo 360, so that after k clicks it is the old one plus 90 k
    (a full turn leaves 360 more, not the same value). *)
Theorem rotation_accumulates_quarter_turns
  (pre post : list (@Element Ideal.number)) (b : BaseElement) (p : RPoint)
  (s : string) (w h : R) (k : nat) :
  ~ In (id b) (ids pre) -> ~ In (id b) (ids post) ->
  forall (r : R) (st : State),
    elements st = pre ++ ImageElement b p s w h r :: post ->
    exists st',
      repeatM k (clickRotate (id b)) st = Some st' /\
      elements st' =
        pre ++ ImageElement b p s w h (r + 90 * INR k) :: post /\
      historyIndex st' = (historyIndex st + Z.of_nat k)%Z.
Proof.
  intros Hpre Hpost. induction k as [|k IH]; intros r st He.
  - exists st. split; [reflexivity|]. split; [|lia].
    rewrite He. simpl INR. now rewrite Rmult_0_r, Rplus_0_r.
  - assert (Hclick : clickRotate (id b) st =
                     Some (@handleImageRotate Ideal.number (id b) (r + 90) st)).
    { unfold clickRotate. rewrite He.
      rewrite (find_target (id b) pre post (ImageElement b p s w h r)
                 eq_refl Hpre).
      reflexivity. }
    assert (He1 : elements (@handleImageRotate Ideal.number (id b) (r + 90) st) =
                  pre ++ ImageElement b p s w h (r + 90) :: post).
    { simpl. rewrite He.
      now rewrite (updateById_target (@withRotation Ideal.number (r + 90))
                     (id b) pre post
                     (ImageElement b p s w h r) eq_refl Hpre Hpost). }
    destruct (IH (r + 90) _ He1) as (st' & Hrun & Hel & Hi).
    exists st'. simpl repeatM. rewrite Hclick. split; [exact Hrun|].
    split.
    + rewrite Hel. rewrite S_INR. do 3 f_equal. ring.
    + rewrite Hi. simpl historyIndex. lia.
Qed.

(** X25: over the reals, a text element that carries no size is shown 250
    wide and 150 high by its editor but hit-tested as a box of 200 by 200;
    a note that carries no size is shown and hit-tested as 200 by 200. *)
Theorem unsized_text_is_shown_and_hit_differently
  (b : @BaseElement Ideal.number) (p : RPoint) (t : string) (f : TextFormat) :
  (exists props,
      textEditorProps (TextElement b p t None None f) = Some props /\
      TextEditorView.textWidth (TextEditorView.init props) = 250 /\
      TextEditorView.textHeight (TextEditorView.init props) = 150) /\
  (forall q : RPoint,
      hitsElement q (TextElement b p t None None f) = true <->
      px p <= px q <= px p + 200 /\ py p <= py q <= py p + 200) /\
  (exists props,
      stickyNoteProps (NoteElement b p t None None) = Some props /\
      StickyNoteView.noteWidth (StickyNoteView.init props) = 200 /\
      StickyNoteView.noteHeight (StickyNoteView.init props) = 200) /\
  (forall q : RPoint,
      hitsElement q (NoteElement b p t None None) = true <->
      px p <= px q <= px p + 200 /\ py p <= py q <= py p + 200).
Proof.
  split; [|split; [|split]].
  - eexists. split; [reflexivity|]. split; reflexivity.
  - intros q. apply boxHit_iff.
  - eexists. split; [reflexivity|]. split; reflexivity.
  - intros q. apply boxHit_iff.
Qed.

End OverlayGeometry.

(** ** Projects *)

Section ProjectFacts.

Context {N : Number}.

Lemma findProject_Some (i : string) (ps : list WhiteboardProject)
  (p : WhiteboardProject) :
  findProject i ps = Some p -> In p ps /\ projectId p = i.
Proof.
  unfold findProject. intros H. apply find_some in H.
  destruct H as [Hin Hid]. split; [exact Hin|].
  now apply String.eqb_eq.
Qed.

Lemma fold_latest (l : list WhiteboardProject) :
  forall acc : WhiteboardProject,
  let r :=
    fold_left
      (fun latest project =>
         if (updatedAt project >? updatedAt latest)%Z
         then project else latest) l acc in
  (r = acc /\ forall p, In p l -> (updatedAt p <= updatedAt acc)%Z) \/
  (exists pre post,
      l = pre ++ r :: post /\
      (forall p, In p pre -> (updatedAt p < updatedAt r)%Z) /\
      (updatedAt acc < updatedAt r)%Z /\
      (forall p, In p post -> (updatedAt p <= updatedAt r)%Z)).
Proof.
  induction l as [|a l IH]; intros acc; simpl.
  - left. split; [reflexivity | intros p []].
  - destruct (updatedAt a >? updatedAt acc)%Z eqn:E.
    + apply Z.gtb_lt in E.
      destruct (IH a) as [[Hr Hall] | (pre & post & Hl & Hpre & Hlt & Hpost)].
      * right. exists [], l. simpl in *. rewrite Hr.
        split; [reflexivity|]. split; [intros p []|]. split; [exact E|].
        exact Hall.
      * right. exists (a :: pre), post. simpl.
        split; [now rewrite <- Hl|]. split; [|split; [lia | exact Hpost]].
        intros p [<-|Hin]; [exact Hlt | now apply Hpre].
    + rewrite Z.gtb_ltb in E. apply Z.ltb_ge in E.
      destruct (IH acc)
        as [[Hr Hall] | (pre & post & Hl & Hpre & Hlt & Hpost)].
      * left. split; [exact Hr|].
        intros p [<-|Hin]; [exact E | now apply Hall].
      * right. exists (a :: pre), post. simpl.
        split; [now rewrite <- Hl|]. split; [|split; [exact Hlt | exact Hpost]].
        intros p [<-|Hin]; [lia | now apply Hpre].
Qed.

Lemma mostRecent_spec (ps : list WhiteboardProject) :
  ps <> [] ->
  exists recent pre post,
    mostRecent ps = Some recent /\ ps = pre ++ recent :: post /\
    (forall p, In p pre -> (updatedAt p < updatedAt recent)%Z) /\
    (forall p, In p post -> (updatedAt p <= updatedAt recent)%Z).
Proof.
  intros Hne. destruct ps as [|first rest]; [contradiction|].
  unfold mostRecent.
  destruct (fold_latest (first :: rest) first)
    as [[Hr Hall] | (pre & post & Hl & Hpre & Hlt & Hpost)].
  - eexists. exists [], rest. split; [reflexivity|]. rewrite Hr.
    split; [reflexivity|]. split; [intros p []|].
    intros p Hin. apply Hall. now right.
  - eexists. exists pre, post. split; [reflexivity|].
    split; [exact Hl|]. now split.
Qed.

(** X26: at start-up the project opened is the one saved last: among the
    stored projects it has the greatest [updatedAt], and of several with
    that same greatest time it is the first in the list; with no stored
    project none is opened. *)
Theorem the_project_saved_last_is_opened (ps : list WhiteboardProject) :
  (ps = [] <-> mostRecent ps = None) /\
  (ps <> [] ->
   exists recent pre post,
     mostRecent ps = Some recent /\ ps = pre ++ recent :: post /\
     (forall p, In p pre -> (updatedAt p < updatedAt recent)%Z) /\
     (forall p, In p post -> (updatedAt p <= updatedAt recent)%Z) /\
     forall now t1 t2 ws,
       currentProject (mountEffect (Some ps) now t1 t2 ws) = Some recent /\
       elements (board (mountEffect (Some ps) now t1 t2 ws)) =
         savedElements recent).
Proof.
  split.
  - destruct ps; split; try discriminate; reflexivity.
  - intros Hne.
    destruct (mostRecent_spec ps Hne)
      as (recent & pre & post & Hm & Hl & Hpre & Hpost).
    exists recent, pre, post. repeat split; try assumption;
      unfold mountEffect; rewrite Hm; reflexivity.
Qed.

Lemma updateCurrentProject_listed (els : list Element) (t : Z)
  (ws : Workspace) :
  currentListed ws -> currentListed (updateCurrentProject els t ws).
Proof.
  intros Hl c. unfold updateCurrentProject.
  destruct (currentProject ws) as [cur|] eqn:Hc; [|apply Hl; exact Hc].
  simpl. intros [= <-].
  apply in_map_iff. exists cur. split.
  - now rewrite String.eqb_refl.
  - now apply Hl.
Qed.

Lemma switchProjectFrom_listed (closure : list WhiteboardProject)
  (i : string) (ws : Workspace) :
  (forall p, findProject i closure = Some p -> In p (projects ws)) ->
  currentListed ws -> currentListed (switchProjectFrom closure i ws).
Proof.
  intros Hin Hl c. unfold switchProjectFrom.
  destruct (findProject i closure) as [p|] eqn:Hf; [|apply Hl].
  simpl. intros [= <-]. now apply Hin.
Qed.

Lemma deleteProject_listed (i now : string) (t1 t2 : Z) (ws : Workspace) :
  currentListed ws -> currentListed (deleteProject i now t1 t2 ws).
Proof.
  intros Hl. unfold deleteProject.
  destruct (findProject i (projects ws)) as [found|]; [|exact Hl].
  cbv zeta.
  set (kept := filter (fun p => negb (String.eqb (projectId p) i))
                 (projects ws)).
  assert (Hkept : forall p, In p kept <->
                    In p (projects ws) /\ projectId p <> i).
  { intros p. unfold kept. rewrite filter_In.
    destruct (String.eqb_spec (projectId p) i); simpl; split;
      intros [H1 H2]; try discriminate; try contradiction; now split. }
  destruct (currentProject ws) as [cur|] eqn:Hc.
  - destruct (String.eqb_spec (projectId cur) i) as [E|E].
    + destruct kept as [|first rest] eqn:Hk.
      * intros c. simpl. intros [= <-]. now left.
      * assert (Hfirst : In first (projects ws) /\ projectId first <> i)
          by (apply Hkept; now left).
        intros c. unfold switchProjectFrom.
        destruct (findProject (projectId first) (projects ws))
          as [p|] eqn:Hp.
        -- simpl. intros [= <-].
           apply findProject_Some in Hp. destruct Hp as [Hin Hid].
           apply Hkept. split; [exact Hin|].
           rewrite Hid. now destruct Hfirst.
        -- exfalso. destruct Hfirst as [Hin _].
           unfold findProject in Hp.
           apply (find_none _ _ Hp) in Hin.
           now rewrite String.eqb_refl in Hin.
    + intros c. simpl. intros [= <-].
      apply Hkept. split; [now apply Hl | exact E].
  - intros c. simpl. discriminate.
Qed.

(** X27: the current project is always one of the project list: creating,
    saving into, switching and deleting projects all keep it so, and so does
    start-up; after the save effect has run, the listed current project
    holds the scene on the board. *)
Theorem the_current_project_stays_listed (ws : Workspace) :
  currentListed ws ->
  (forall name now t1 t2,
      currentListed (createNewProject name now t1 t2 ws)) /\
  (forall els t, currentListed (updateCurrentProject els t ws)) /\
  (forall i, currentListed (switchProject i ws)) /\
  (forall i now t1 t2, currentListed (deleteProject i now t1 t2 ws)) /\
  (forall saved now t1 t2,
      currentProject ws = None ->
      currentListed (mountEffect saved now t1 t2 ws)) /\
  (forall t,
      currentListed (syncEffect t ws) /\
      board (syncEffect t ws) = board ws /\
      forall c, currentProject (syncEffect t ws) = Some c ->
        In c (projects (syncEffect t ws)) /\
        savedElements c = elements (board ws)).
Proof.
  intros Hl. split; [|split; [|split; [|split; [|split]]]].
  - intros name now t1 t2 c. simpl. intros [= <-].
    apply in_or_app. right. now left.
  - intros els t. now apply updateCurrentProject_listed.
  - intros i. apply switchProjectFrom_listed; [|exact Hl].
    intros p Hp. now apply findProject_Some in Hp.
  - intros i now t1 t2. now apply deleteProject_listed.
  - intros saved now t1 t2 Hnone. unfold mountEffect.
    destruct saved as [ps|].
    + destruct ps as [|first rest].
      * simpl. intros c. simpl. rewrite Hnone. discriminate.
      * destruct (mostRecent_spec (first :: rest))
          as (recent & pre & post & Hm & Hps & _); [discriminate|].
        rewrite Hm. intros c. simpl. intros [= <-].
        change (In recent (first :: rest)). rewrite Hps.
        apply in_or_app. right. now left.
    + intros c. simpl. intros [= <-]. apply in_or_app. right. now left.
  - intros t.
    pose proof (updateCurrentProject_listed (elements (board ws)) t ws Hl)
      as Hl'.
    split; [exact Hl'|]. split.
    + unfold syncEffect, updateCurrentProject.
      destruct (currentProject ws); reflexivity.
    + intros c Hc. split; [now apply Hl'|].
      unfold syncEffect, updateCurrentProject in Hc.
      destruct (currentProject ws) as [cur|] eqn:E.
      * simpl in Hc. injection Hc as <-. reflexivity.
      * rewrite E in Hc. discriminate.
Qed.

Lemma updateCurrentProject_find (els : list Element) (t : Z) (ws : Workspace)
  (cur : WhiteboardProject) (i : string) :
  currentProject ws = Some cur -> i <> projectId cur ->
  findProject i (projects (updateCurrentProject els t ws)) =
  findProject i (projects ws).
Proof.
  intros Hc Hne. unfold updateCurrentProject. rewrite Hc. simpl.
  unfold findProject. induction (projects ws) as [|p ps IH]; [reflexivity|].
  simpl. destruct (String.eqb_spec (projectId p) (projectId cur)) as [E|E].
  - simpl. destruct (String.eqb_spec (projectId cur) i) as [E1|_];
      [now symmetry in E1|].
    destruct (String.eqb_spec (projectId p) i) as [E2|_];
      [rewrite E in E2; now symmetry in E2|].
    exact IH.
  - destruct (String.eqb (projectId p) i); [reflexivity | exact IH].
Qed.

Lemma saveAll_keeps_others (saves : list (list Element * Z)) :
  forall (ws : Workspace) (cur : WhiteboardProject),
  currentProject ws = Some cur ->
  (exists c, currentProject (saveAll saves ws) = Some c /\
             projectId c = projectId cur) /\
  board (saveAll saves ws) = board ws /\
  forall i, i <> projectId cur ->
    findProject i (projects (saveAll saves ws)) = findProject i (projects ws).
Proof.
  induction saves as [|[els t] saves IH]; intros ws cur Hc.
  - simpl. split; [now exists cur|]. now split.
  - simpl.
    assert (Hc1 : currentProject (updateCurrentProject els t ws) =
                  Some (mkProject (projectId cur) (projectName cur) els
                          (createdAt cur) t)).
    { unfold updateCurrentProject. now rewrite Hc. }
    destruct (IH _ _ Hc1) as ((c & Hcc & Hid) & Hb & Hf).
    split; [exists c; split; [exact Hcc | exact Hid]|]. split.
    + rewrite Hb. unfold updateCurrentProject. now rewrite Hc.
    + intros i Hi. rewrite (Hf i Hi).
      now apply (updateCurrentProject_find els t ws cur).
Qed.

(** The first project left after a deletion is the one its id finds in
    the list before the deletion. *)
Lemma findProject_first_kept (i : string) (ps : list WhiteboardProject) :
  forall first rest,
    filter (fun p => negb (String.eqb (projectId p) i)) ps = first :: rest ->
    findProject (projectId first) ps = Some first.
Proof.
  induction ps as [|p ps IH]; intros first rest Hf; [discriminate|].
  simpl in Hf. unfold findProject. simpl.
  destruct (String.eqb_spec (projectId p) i) as [E|E]; simpl in Hf.
  - assert (Hin : In first
                    (filter (fun q => negb (String.eqb (projectId q) i)) ps))
      by (rewrite Hf; now left).
    apply filter_In in Hin. destruct Hin as [_ Hk].
    destruct (String.eqb_spec (projectId p) (projectId first)) as [E'|_].
    + rewrite <- E', E, String.eqb_refl in Hk. discriminate.
    + exact (IH first rest Hf).
  - injection Hf as -> _. now rewrite String.eqb_refl.
Qed.

(** X28: deleting a project whose id is not listed changes nothing.
    Deleting the current project removes every project with its id and no
    other, keeping the rest in order, and opens the first of those left or,
    when none is left, a fresh empty project named Untitled Whiteboard,
    which is then the only one listed.  The board shows the scene of the
    project opened, with an empty history. *)
Theorem deleting_the_current_project_opens_the_first_left
  (ws : Workspace) (i now : string) (t1 t2 : Z) :
  (findProject i (projects ws) = None ->
   deleteProject i now t1 t2 ws = ws) /\
  (forall cur found,
      findProject i (projects ws) = Some found ->
      currentProject ws = Some cur -> projectId cur = i ->
      let remaining :=
        filter (fun p => negb (String.eqb (projectId p) i)) (projects ws) in
      let ws' := deleteProject i now t1 t2 ws in
      (forall p, In p remaining <-> In p (projects ws) /\ projectId p <> i) /\
      match remaining with
      | first :: _ =>
          projects ws' = remaining /\ currentProject ws' = Some first /\
          board ws' = loadProject (savedElements first) (board ws) /\
          elements (board ws') = savedElements first
      | [] =>
          let fresh := mkProject now "Untitled Whiteboard" [] t1 t2 in
          projects ws' = [fresh] /\ currentProject ws' = Some fresh /\
          board ws' = loadProject [] (board ws) /\
          elements (board ws') = []
      end /\
      history (board ws') = [] /\ historyIndex (board ws') = (-1)%Z).
Proof.
  split.
  - intros Hnone. unfold deleteProject. now rewrite Hnone.
  - intros cur found Hf Hc Hid remaining ws'.
    assert (Hkept : forall p, In p remaining <->
                      In p (projects ws) /\ projectId p <> i).
    { intros p. unfold remaining. rewrite filter_In.
      destruct (String.eqb_spec (projectId p) i); simpl; split;
        intros [H1 H2]; try discriminate; try contradiction; now split. }
    split; [exact Hkept|].
    unfold ws', deleteProject. rewrite Hf, Hc. rewrite Hid, String.eqb_refl.
    cbv zeta. fold remaining.
    destruct remaining as [|first rest] eqn:Hk.
    + simpl. repeat split.
    + unfold switchProjectFrom.
      rewrite (findProject_first_kept i (projects ws) first rest Hk).
      simpl. repeat split.
Qed.

(** X29: saving the scene into the current project leaves the projects
    with another id as they are.  So after switching from a project to
    another, whatever is saved there, switching back shows the scene the
    first project had been saved with, on an empty history. *)
Theorem switching_back_restores_the_saved_scene
  (ws : Workspace) (a b : string) (A B : WhiteboardProject)
  (saves : list (list Element * Z)) :
  findProject a (projects ws) = Some A ->
  findProject b (projects ws) = Some B -> a <> b ->
  let ws1 := saveAll saves (switchProject b ws) in
  (forall i, i <> b ->
      findProject i (projects ws1) = findProject i (projects ws)) /\
  currentProject (switchProject a ws1) = Some A /\
  elements (board (switchProject a ws1)) = savedElements A /\
  history (board (switchProject a ws1)) = [] /\
  historyIndex (board (switchProject a ws1)) = (-1)%Z.
Proof.
  intros HA HB Hab ws1.
  assert (HidB : projectId B = b) by now apply findProject_Some in HB.
  assert (Hcur : currentProject (switchProject b ws) = Some B).
  { unfold switchProject, switchProjectFrom. now rewrite HB. }
  assert (Hps : projects (switchProject b ws) = projects ws).
  { unfold switchProject, switchProjectFrom. now rewrite HB. }
  destruct (saveAll_keeps_others saves _ _ Hcur) as (_ & _ & Hfind).
  rewrite HidB, Hps in Hfind. fold ws1 in Hfind.
  split; [exact Hfind|].
  unfold switchProject at 1 2 3 4, switchProjectFrom.
  rewrite (Hfind a Hab), HA. simpl. repeat split.
Qed.

End ProjectFacts.

(** * The further properties at sample inputs *)

Lemma pen_gesture_appends_one_stroke_witness :
  activeTool Board.penReady = tool_pen /\
  run (gesture (Sample.pt 0 0) "1700000000002" [Sample.pt 10 0])
    Board.penReady = Some Sample.strokeDrawn.
Proof.
  split; [reflexivity|].
  exact (@pen_gesture_appends_one_stroke JsFloat.number Board.penReady
           (Sample.pt 0 0) "1700000000002" [Sample.pt 10 0] eq_refl).
Defined.

Lemma shape_gesture_appends_one_shape_witness :
  activeTool Board.shapeReady = tool_shape rectangle /\
  exists st',
    run (gesture (Sample.pt 0 0) "1700000000000"
           [Sample.pt 30 10; Sample.pt 100 50]) Board.shapeReady = Some st' /\
    elements st' = [Sample.rectA] /\ history st' = [[Sample.rectA]] /\
    action st' = act_none.
Proof.
  split; [reflexivity|].
  eexists. split.
  - exact (@shape_gesture_appends_one_shape JsFloat.number Board.shapeReady
             rectangle (Sample.pt 0 0) "1700000000000"
             [Sample.pt 30 10; Sample.pt 100 50] eq_refl).
  - repeat split; reflexivity.
Defined.

Lemma eraser_gesture_commits_at_most_once_witness :
  activeTool Board.eraserReady = tool_eraser /\
  exists st',
    run (gesture (Sample.pt 50 25) "1700000000005" [Sample.pt 50 25])
      Board.eraserReady = Some st' /\
    elements st' = [] /\
    history st' = [[Sample.rectA]] /\ historyIndex st' = 0%Z.
Proof.
  split; [reflexivity|].
  destruct (@eraser_gesture_commits_at_most_once JsFloat.number
              Board.eraserReady (Sample.pt 50 25) "1700000000005"
              [Sample.pt 50 25] eq_refl)
    as (st' & Hrun & Hel & _ & _ & Hh).
  exists st'. split; [exact Hrun|]. split; [exact Hel | exact Hh].
Defined.

Lemma select_gesture_changes_nothing_witness :
  activeTool Board.overlapping = tool_select /\
  action Board.overlapping = act_none /\
  run (gesture (Sample.pt 50 25) "1700000000005"
         [Sample.pt 60 30; Sample.pt 70 35]) Board.overlapping =
  Some Board.overlapping.
Proof.
  split; [reflexivity|]. split; [reflexivity|].
  exact (@select_gesture_changes_nothing JsFloat.number Board.overlapping
           (Sample.pt 50 25) "1700000000005"
           [Sample.pt 60 30; Sample.pt 70 35] eq_refl eq_refl).
Defined.

Lemma handlers_keep_ids_unique_witness :
  rendered bringsFreshIds Sample.lateRenders /\
  Forall idsUnique Sample.lateRenders /\
  ids (elements Sample.lateLoaded) =
    ["1700000000003"; "1700000000004"; "1700000000005"] /\
  map ids (history Sample.lateLoaded) = [["1700000000005"]].
Proof.
  split; [exact lateRenders_fresh|].
  split; [|split; reflexivity].
  exact (@handlers_keep_ids_unique JsFloat.number Sample.lateRenders
           lateRenders_fresh).
Defined.

Lemma edit_touches_only_its_target_witness :
  elements Board.overlapping = [Sample.rectA] ++ Sample.noteB :: [] /\
  ~ In "1700000000001" (ids [Sample.rectA]) /\
  elements (handleTextChange "1700000000001" "Buy milk" Board.overlapping) =
  [Sample.rectA;
   NoteElement (Sample.base "1700000000001") (Sample.pt 40 20) "Buy milk"
     None None].
Proof.
  assert (Hpre : ~ In "1700000000001" (ids [Sample.rectA]))
    by (simpl; intros [H|[]]; discriminate H).
  assert (Hpost : ~ In "1700000000001" (ids (@nil (@Element JsFloat.number))))
    by (intros []).
  split; [reflexivity|]. split; [exact Hpre|].
  exact (proj1 (@edit_touches_only_its_target JsFloat.number
                  Board.overlapping "1700000000001" [Sample.rectA] []
                  Sample.noteB eq_refl eq_refl Hpre Hpost) "Buy milk").
Defined.


Lemma threeCommits_showsCursor : showsCursor Sample.threeCommits.
Proof. split; [simpl; lia | reflexivity]. Qed.

Lemma undo_and_redo_are_inverse_witness :
  showsCursor Sample.threeCommits /\
  exists u,
    handleUndo Sample.threeCommits = Some u /\ u <> Sample.threeCommits /\
    handleRedo u = Some Sample.threeCommits.
Proof.
  split; [exact threeCommits_showsCursor|].
  exact (proj1 (@undo_and_redo_are_inverse JsFloat.number
                  Sample.threeCommits threeCommits_showsCursor) eq_refl).
Defined.


Lemma circleHit_is_the_inscribed_ellipse_witness :
  Plane.px Board.cornerS <> Plane.px Board.cornerE /\
  Plane.py Board.cornerS <> Plane.py Board.cornerE /\
  circleHit
    (@mkPoint Ideal.number
       ((Plane.px Board.cornerS + Plane.px Board.cornerE) / 2)%R
       ((Plane.py Board.cornerS + Plane.py Board.cornerE) / 2)%R)
    Board.cornerS Board.cornerE = true /\
  circleHit Board.cornerS Board.cornerS Board.cornerE = false /\
  circleHit Board.cornerE Board.cornerS Board.cornerE = false.
Proof.
  assert (Hx : Plane.px Board.cornerS <> Plane.px Board.cornerE)
    by (simpl; lra).
  assert (Hy : Plane.py Board.cornerS <> Plane.py Board.cornerE)
    by (simpl; lra).
  split; [exact Hx|]. split; [exact Hy|].
  exact (proj2 (proj2 (proj2
           (circleHit_is_the_inscribed_ellipse Board.cornerS Board.cornerS
              Board.cornerE Hx Hy)))).
Defined.

Lemma focusing_a_text_box_reports_the_text_it_holds_witness :
  run (snd (TextEditorView.session Board.textProps
              [TextEditorView.ui_click; TextEditorView.ui_change "bye";
               TextEditorView.ui_blur]
              (TextEditorView.init Board.textProps)))
    (commitScene [Board.textC] (@initialState JsFloat.number))
    = Some Board.retyped /\
  handleUndo Board.retyped = Some Board.undone /\
  elements Board.undone = [] ++ Board.textC :: [] /\
  TextEditorView.text Board.typedCells = "bye" /\
  exists props st',
    textEditorProps Board.textC = Some props /\
    run (snd (TextEditorView.session props
                [TextEditorView.ui_click; TextEditorView.ui_blur]
                Board.typedCells)) Board.undone = Some st' /\
    elements st' =
      [TextElement (Sample.base "1700000000003") (Sample.pt 10 10) "bye"
         None None noFormat] /\
    historyIndex st' = 1%Z.
Proof.
  split; [reflexivity|].
  split; [reflexivity|]. split; [reflexivity|]. split; [reflexivity|].
  assert (Hnone : ~ In "1700000000003" (ids (@nil (@Element JsFloat.number))))
    by (intros []).
  destruct (@focusing_a_text_box_reports_the_text_it_holds JsFloat.number
              Board.undone [] [] (Sample.base "1700000000003")
              (Sample.pt 10 10) "hello" None None noFormat Board.typedCells
              eq_refl Hnone Hnone)
    as (props & Hp & _ & Hres).
  cbv zeta in Hres. destruct Hres as [_ Hres].
  assert (H1 : TextEditorView.text Board.typedCells <> "") by discriminate.
  assert (H2 : TextEditorView.text Board.typedCells
               <> TextEditorView.placeholder) by discriminate.
  destruct (Hres H1 H2) as (_ & _ & st' & Hrun & Hel & Hidx & _).
  exists props, st'. split; [exact Hp|]. split; [exact Hrun|].
  split; [exact Hel | exact Hidx].
Defined.

Lemma typing_sets_the_text_of_the_element_witness :
  elements Board.oneNote = [] ++ Sample.noteB :: [] /\
  exists props st',
    stickyNoteProps Sample.noteB = Some props /\
    run (snd (StickyNoteView.session props
                [StickyNoteView.ui_doubleClick;
                 StickyNoteView.ui_change "Buy milk";
                 StickyNoteView.ui_blur]
                (StickyNoteView.init props))) Board.oneNote = Some st' /\
    elements st' =
      [NoteElement (Sample.base "1700000000001") (Sample.pt 40 20)
         "Buy milk" None None] /\
    historyIndex st' = 0%Z.
Proof.
  split; [reflexivity|].
  assert (Hnone : ~ In "1700000000001" (ids (@nil (@Element JsFloat.number))))
    by (intros []).
  destruct (proj1 (@typing_sets_the_text_of_the_element JsFloat.number
                     Board.oneNote [] [] (Sample.base "1700000000001")
                     (Sample.pt 40 20) "New note" "Buy milk" None None
                     Hnone Hnone) eq_refl)
    as (props & Hp & st' & Hrun & Hel & Hidx).
  exists props, st'. split; [exact Hp|]. split; [exact Hrun|].
  split; [exact Hel | exact Hidx].
Defined.

Lemma rotation_accumulates_quarter_turns_witness :
  elements Board.oneImage = [] ++ Board.imageD 0%R :: [] /\
  exists st',
    repeatM 4 (clickRotate "1700000000004") Board.oneImage = Some st' /\
    elements st' = [Board.imageD (0 + 90 * INR 4)%R] /\
    historyIndex st' = 3%Z.
Proof.
  split; [reflexivity|].
  assert (Hnone : ~ In "1700000000004" (ids (@nil (@Element Ideal.number))))
    by (intros []).
  exact (rotation_accumulates_quarter_turns [] []
           (@mkBase Ideal.number "1700000000004" "#000000" 3%R 1%R)
           (@mkPoint Ideal.number 100%R 100%R) "data:image/png;base64,AAAA"
           200%R 100%R 4 Hnone Hnone 0%R Board.oneImage eq_refl).
Defined.

Lemma twoProjects_currentListed : currentListed Board.twoProjects.
Proof. intros c Hc. injection Hc as <-. left. reflexivity. Qed.

Lemma the_current_project_stays_listed_witness :
  currentListed Board.twoProjects /\
  currentProject (deleteProject "1700000000010" "1700000000012" 400 400
                    Board.twoProjects) = Some Board.projectQ /\
  currentListed (deleteProject "1700000000010" "1700000000012" 400 400
                   Board.twoProjects).
Proof.
  split; [exact twoProjects_currentListed|]. split; [reflexivity|].
  exact (proj1 (proj2 (proj2 (proj2
           (@the_current_project_stays_listed JsFloat.number
              Board.twoProjects twoProjects_currentListed))))
           "1700000000010" "1700000000012" 400%Z 400%Z).
Defined.

Lemma switching_back_restores_the_saved_scene_witness :
  findProject "1700000000010" (projects Board.twoProjects)
    = Some Board.projectP /\
  findProject "1700000000011" (projects Board.twoProjects)
    = Some Board.projectQ /\
  elements
    (board
       (switchProject "1700000000010"
          (saveAll [([Sample.noteB; Sample.rectA], 500%Z); ([], 600%Z)]
             (switchProject "1700000000011" Board.twoProjects))))
  = [Sample.rectA].
Proof.
  split; [reflexivity|]. split; [reflexivity|].
  assert (Hab : "1700000000010" <> "1700000000011") by discriminate.
  exact (proj1 (proj2 (proj2
           (@switching_back_restores_the_saved_scene JsFloat.number
              Board.twoProjects "1700000000010" "1700000000011"
              Board.projectP Board.projectQ
              [([Sample.noteB; Sample.rectA], 500%Z); ([], 600%Z)]
              eq_refl eq_refl Hab)))).
Defined.
